(** * Time Ruler: store, timeline bucketing and heading groups

    A shallow embedding of the scheduling-view code of the plugin:
    the zustand store with its setters and getters ([app/store]),
    the task and event bucketing of the [Timeline] component, the
    leaf rule of the heading-level [Group] component and the drag
    cancel handler of [App].  JavaScript objects used as tables are
    finite maps, optional fields are [option]s, ISO timestamps are
    strings compared code unit by code unit, as [<] and [>=] do on
    JavaScript strings.  Names and paths, which are free text, are
    compared through their UTF-16 code units ([Utf16.compare]); on
    ASCII strings the two comparisons are the same. *)

From Stdlib Require Import String Ascii List Bool Arith NArith Lia Sorted Permutation.
From Stdlib Require OrderedTypeEx.
From stdpp Require Import base option list gmap strings fin_maps.
Import ListNotations.

Local Open Scope string_scope.
Local Open Scope list_scope.

(** ** JavaScript strings and truthiness *)

Module Js.

(** [a < b], [a > b], [a <= b], [a >= b] on two strings: the
    lexicographic order on code units. *)
Definition lt (a b : string) : bool := String.ltb a b.
Definition gt (a b : string) : bool := String.ltb b a.
Definition le (a b : string) : bool := String.leb a b.
Definition ge (a b : string) : bool := String.leb b a.

(** A string is truthy unless it is empty. *)
Definition truthyStr (s : string) : bool :=
  match s with
  | EmptyString => false
  | String _ _ => true
  end.

(** An optional string field: [undefined] and [null] are falsy. *)
Definition truthy (o : option string) : bool :=
  match o with
  | Some s => truthyStr s
  | None => false
  end.

(** [s.slice(0, n)]: the first [n] code units, or all of [s] when it
    is shorter. *)
Definition slice0 (n : nat) (s : string) : string := substring 0 n s.

(** [xs.includes(x)] on an array of strings. *)
Definition includes (xs : list string) (x : string) : bool :=
  existsb (String.eqb x) xs.

End Js.

(** ** Records *)

(** [TaskProps]: the fields the components and the store read.
    [position_start_line] is [position.start.line]. *)
Module Task.
Record TaskProps := mk {
  id : string;
  type : string;
  scheduled : option string;
  due : option string;
  completion : option string;
  parent : option string;
  children : list string;
  area : string;
  heading : option string;
  path : string;
  position_start_line : nat
}.
End Task.
Abbreviation TaskProps := Task.TaskProps.

(** [EventProps]: a calendar event. *)
Module Event.
Record EventProps := mk {
  id : string;
  startISO : string;
  endISO : string;
  title : string;
  location : string;
  notes : string
}.
End Event.
Abbreviation EventProps := Event.EventProps.

(** [Partial<TaskProps>]: every key may be absent.  [None] is an
    absent key, [Some v] a key holding [v]. *)
Module Partial.
Record TaskProps := mk {
  id : option string;
  type : option string;
  scheduled : option string;
  due : option string;
  completion : option string;
  parent : option string;
  children : option (list string);
  area : option string;
  heading : option string;
  path : option string;
  position_start_line : option nat
}.

(** The object literal [{}]. *)
Definition empty : TaskProps :=
  mk None None None None None None None None None None None.
End Partial.

(** [ViewMode] of the store. *)
Module ViewMode.
Inductive t := all | scheduled | due | unscheduled | priority | headings.
End ViewMode.

(** ** Declarations imported from modules outside this tree

    The components import [TaskActions] from [types/enums],
    [isCompleted] and [isDateISO] from [services/util], [CalendarAPI]
    from [services/calendarApi], and use the global type [DragData].
    The embedding is parametric in them. *)
Class Imports := {
  DragData : Type;
  CalendarAPI : Type;
  TaskActions_DELETE : string;
  isCompleted : TaskProps -> bool;
  isDateISO : string -> bool
}.

(** ** The Obsidian collaborator

    [ObsidianAPI] is a black box to the store.  What the store does to
    it is the sequence of calls it makes; what it does to the store is
    whether the promise of [saveTask] is fulfilled or rejected, which
    the collaborator decides from the calls made so far and the record
    it is given. *)
Inductive ApiCall :=
| SaveTask (savedTask : Partial.TaskProps) (fulfilled : bool)
| PlayComplete.

Record ObsidianAPI := {
  saveTask : list ApiCall -> Partial.TaskProps -> bool
}.

(** ** The store ([app/store]) *)

Section Store.
Context `{Imports}.

Record Apis := {
  obsidian : option ObsidianAPI;
  calendar : option CalendarAPI
}.

Record AppState := {
  tasks : gmap string TaskProps;
  events : gmap string EventProps;
  apis : Apis;
  dragData : option DragData;
  findingTask : option string;
  inScroll : nat;
  searchStatus : option ViewMode.t;
  calendarMode : bool;
  dailyNoteFormat : string;
  dailyNotePath : string;
  fileOrder : list string;
  newTask : option Partial.TaskProps;
  dayStartEnd : nat * nat;
  hideHeadings : bool;
  muted : bool;
  twentyFourHourFormat : bool;
  collapsed : gmap string bool
}.

(** [Partial<AppState>]: [None] is an absent key.  A key of a
    nullable slot holds an [option] of its own, so
    [{ dragData: null }] is [new_dragData := Some None]. *)
Record PartialAppState := {
  new_tasks : option (gmap string TaskProps);
  new_events : option (gmap string EventProps);
  new_apis : option Apis;
  new_dragData : option (option DragData);
  new_findingTask : option (option string);
  new_inScroll : option nat;
  new_searchStatus : option (option ViewMode.t);
  new_calendarMode : option bool;
  new_dailyNoteFormat : option string;
  new_dailyNotePath : option string;
  new_fileOrder : option (list string);
  new_newTask : option (option Partial.TaskProps);
  new_dayStartEnd : option (nat * nat);
  new_hideHeadings : option bool;
  new_muted : option bool;
  new_twentyFourHourFormat : option bool;
  new_collapsed : option (gmap string bool)
}.

(** The object literal [{}] as a [Partial<AppState>]. *)
Definition noChange : PartialAppState :=
  {| new_tasks := None; new_events := None; new_apis := None;
     new_dragData := None; new_findingTask := None; new_inScroll := None;
     new_searchStatus := None; new_calendarMode := None;
     new_dailyNoteFormat := None; new_dailyNotePath := None;
     new_fileOrder := None; new_newTask := None; new_dayStartEnd := None;
     new_hideHeadings := None; new_muted := None;
     new_twentyFourHourFormat := None; new_collapsed := None |}.

(** [Object.assign({}, state, nextState)]: the merge zustand's
    [setState] does when [replace] is not asked for. *)
Definition assign (state : AppState) (nextState : PartialAppState) : AppState :=
  {| tasks := default (tasks state) (new_tasks nextState);
     events := default (events state) (new_events nextState);
     apis := default (apis state) (new_apis nextState);
     dragData := default (dragData state) (new_dragData nextState);
     findingTask := default (findingTask state) (new_findingTask nextState);
     inScroll := default (inScroll state) (new_inScroll nextState);
     searchStatus := default (searchStatus state) (new_searchStatus nextState);
     calendarMode := default (calendarMode state) (new_calendarMode nextState);
     dailyNoteFormat := default (dailyNoteFormat state) (new_dailyNoteFormat nextState);
     dailyNotePath := default (dailyNotePath state) (new_dailyNotePath nextState);
     fileOrder := default (fileOrder state) (new_fileOrder nextState);
     newTask := default (newTask state) (new_newTask nextState);
     dayStartEnd := default (dayStartEnd state) (new_dayStartEnd nextState);
     hideHeadings := default (hideHeadings state) (new_hideHeadings nextState);
     muted := default (muted state) (new_muted nextState);
     twentyFourHourFormat :=
       default (twentyFourHourFormat state) (new_twentyFourHourFormat nextState);
     collapsed := default (collapsed state) (new_collapsed nextState) |}.

(** The initial state given to [createWithEqualityFn]. *)
Definition initialState : AppState :=
  {| tasks := ∅; events := ∅;
     apis := {| obsidian := None; calendar := None |};
     dragData := None; findingTask := None; inScroll := 0;
     searchStatus := None; calendarMode := false;
     dailyNoteFormat := "YYYY-MM-DD"; dailyNotePath := "";
     fileOrder := []; newTask := None; dayStartEnd := (0, 24);
     hideHeadings := false; muted := false;
     twentyFourHourFormat := false; collapsed := ∅ |}.

(** *** Effects

    A computation of the store runs on the state of the store and the
    calls made to the collaborator so far.  It returns a value or
    throws: a rejected promise that is awaited throws in the awaiting
    function, and so does a call of a method of [undefined]. *)
Record Sys := {
  store : AppState;
  calls : list ApiCall
}.

Inductive Failure := Rejected | TypeError.

Inductive Outcome (A : Type) :=
| Returned (a : A)
| Thrown (e : Failure).
Global Arguments Returned {A} a.
Global Arguments Thrown {A} e.

Definition M (A : Type) : Type := Sys -> Sys * Outcome A.

Definition ret {A} (a : A) : M A := fun s => (s, Returned a).

Definition bind {A B} (m : M A) (k : A -> M B) : M B :=
  fun s =>
    match m s with
    | (s', Returned a) => k a s'
    | (s', Thrown e) => (s', Thrown e)
    end.

Definition throw {A} (e : Failure) : M A := fun s => (s, Thrown e).

(** [useAppStore.getState()] *)
Definition getState : M AppState := fun s => (s, Returned (store s)).

(** [useAppStore.setState(partial)] with a function argument. *)
Definition setState (partial : AppState -> PartialAppState) : M unit :=
  fun s =>
    ({| store := assign (store s) (partial (store s)); calls := calls s |},
     Returned tt).

End Store.

Notation "'let*' x ':=' m 'in' k" := (bind m (fun x => k))
  (at level 10, x name, m at level 100, k at level 200).

Section Setters.
Context `{Imports}.

(** [produce(modifier)] of immer, curried.  Every recipe of the store
    leaves the draft alone and returns the new value, and immer then
    gives that value back. *)
Definition produce (modifier : AppState -> PartialAppState)
  : AppState -> PartialAppState := modifier.

Definition modify (modifier : AppState -> PartialAppState) : M unit :=
  setState (produce modifier).

(** *** getters *)

Definition getEvent (id : string) : M (option EventProps) :=
  let* state := getState in ret (events state !! id).

Definition getTask (id : string) : M (option TaskProps) :=
  let* state := getState in ret (tasks state !! id).

(** [apis.obsidian as ObsidianAPI]: the cast does not check anything,
    the value is [undefined] until [App] has stored the APIs. *)
Definition getObsidianAPI : M (option ObsidianAPI) :=
  let* state := getState in ret (obsidian (apis state)).

Definition getCalendarAPI : M (option CalendarAPI) :=
  let* state := getState in ret (calendar (apis state)).

(** *** Calls to the collaborator *)

(** [await obsidianAPI.saveTask(savedTask)] *)
Definition awaitSaveTask (obsidianAPI : option ObsidianAPI)
    (savedTask : Partial.TaskProps) : M unit :=
  match obsidianAPI with
  | None => throw TypeError
  | Some api =>
      fun s =>
        let fulfilled := saveTask api (calls s) savedTask in
        ({| store := store s;
            calls := calls s ++ [SaveTask savedTask fulfilled] |},
         if fulfilled then Returned tt else Thrown Rejected)
  end.

(** [obsidianAPI.playComplete()], not awaited. *)
Definition playComplete (obsidianAPI : option ObsidianAPI) : M unit :=
  match obsidianAPI with
  | None => throw TypeError
  | Some _ =>
      fun s =>
        ({| store := store s; calls := calls s ++ [PlayComplete] |},
         Returned tt)
  end.

(** *** Object spread on task records *)

(** A stored task as an object: the optional fields that are not set
    are absent keys. *)
Definition ofTask (t : TaskProps) : Partial.TaskProps :=
  {| Partial.id := Some (Task.id t);
     Partial.type := Some (Task.type t);
     Partial.scheduled := Task.scheduled t;
     Partial.due := Task.due t;
     Partial.completion := Task.completion t;
     Partial.parent := Task.parent t;
     Partial.children := Some (Task.children t);
     Partial.area := Some (Task.area t);
     Partial.heading := Task.heading t;
     Partial.path := Some (Task.path t);
     Partial.position_start_line := Some (Task.position_start_line t) |}.

(** One key of [{ ...a, ...b }]: the key of [b] when it has it. *)
Definition spreadKey {A} (a b : option A) : option A :=
  match b with
  | Some v => Some v
  | None => a
  end.

(** [{ ...a, ...b }] *)
Definition spread (a b : Partial.TaskProps) : Partial.TaskProps :=
  {| Partial.id := spreadKey (Partial.id a) (Partial.id b);
     Partial.type := spreadKey (Partial.type a) (Partial.type b);
     Partial.scheduled := spreadKey (Partial.scheduled a) (Partial.scheduled b);
     Partial.due := spreadKey (Partial.due a) (Partial.due b);
     Partial.completion := spreadKey (Partial.completion a) (Partial.completion b);
     Partial.parent := spreadKey (Partial.parent a) (Partial.parent b);
     Partial.children := spreadKey (Partial.children a) (Partial.children b);
     Partial.area := spreadKey (Partial.area a) (Partial.area b);
     Partial.heading := spreadKey (Partial.heading a) (Partial.heading b);
     Partial.path := spreadKey (Partial.path a) (Partial.path b);
     Partial.position_start_line :=
       spreadKey (Partial.position_start_line a) (Partial.position_start_line b) |}.

(** [{ ...x }] where [x] may be [undefined]: spreading [undefined]
    adds no key and does not throw. *)
Definition spreadMaybe (x : option TaskProps) : Partial.TaskProps :=
  match x with
  | Some t => ofTask t
  | None => Partial.empty
  end.

(** [delete savedTask.scheduled] *)
Definition deleteScheduled (savedTask : Partial.TaskProps) : Partial.TaskProps :=
  {| Partial.id := Partial.id savedTask;
     Partial.type := Partial.type savedTask;
     Partial.scheduled := None;
     Partial.due := Partial.due savedTask;
     Partial.completion := Partial.completion savedTask;
     Partial.parent := Partial.parent savedTask;
     Partial.children := Partial.children savedTask;
     Partial.area := Partial.area savedTask;
     Partial.heading := Partial.heading savedTask;
     Partial.path := Partial.path savedTask;
     Partial.position_start_line := Partial.position_start_line savedTask |}.

(** The record one turn of the loop of [patchTasks] builds:
    [{ ...getters.getTask(id), ...task }], and then
    [delete savedTask.scheduled] when [task.scheduled] is the
    [DELETE] action. *)
Definition savedTaskOf (current : option TaskProps) (task : Partial.TaskProps)
  : Partial.TaskProps :=
  let savedTask := spread (spreadMaybe current) task in
  if bool_decide (Partial.scheduled task = Some TaskActions_DELETE)
  then deleteScheduled savedTask
  else savedTask.

(** The state after one call of [saveTask]. *)
Definition afterSave (s : Sys) (savedTask : Partial.TaskProps) (fulfilled : bool)
  : Sys :=
  {| store := store s; calls := calls s ++ [SaveTask savedTask fulfilled] |}.

(** The record [patchTasks] builds for [id] in the state [s]. *)
Definition savedFor (s : Sys) (task : Partial.TaskProps) (id : string)
  : Partial.TaskProps :=
  savedTaskOf (tasks (store s) !! id) task.

(** *** setters *)

Definition set (newState : PartialAppState) : M unit :=
  modify (fun _ => newState).

(** The [for (let id of ids)] loop of [patchTasks]. *)
Fixpoint patchLoop (obsidianAPI : option ObsidianAPI)
    (task : Partial.TaskProps) (ids : list string) : M unit :=
  match ids with
  | [] => ret tt
  | id :: rest =>
      let* current := getTask id in
      let savedTask := savedTaskOf current task in
      let* _ := awaitSaveTask obsidianAPI savedTask in
      patchLoop obsidianAPI task rest
  end.

Definition patchTasks (ids : list string) (task : Partial.TaskProps) : M unit :=
  let* obsidianAPI := getObsidianAPI in
  let* _ := patchLoop obsidianAPI task ids in
  if Js.truthy (Partial.completion task)
  then playComplete obsidianAPI
  else ret tt.

Definition patchCollapsed (id : string) (isCollapsed : bool) : M unit :=
  modify (fun state =>
    {| new_tasks := None; new_events := None; new_apis := None;
       new_dragData := None; new_findingTask := None; new_inScroll := None;
       new_searchStatus := None; new_calendarMode := None;
       new_dailyNoteFormat := None; new_dailyNotePath := None;
       new_fileOrder := None; new_newTask := None; new_dayStartEnd := None;
       new_hideHeadings := None; new_muted := None;
       new_twentyFourHourFormat := None;
       new_collapsed := Some (<[id := isCollapsed]> (collapsed state)) |}).

(** ** The drag cancel handler of [App]

    [onDragCancel={() => setters.set({ dragData: null })}] *)
Definition onDragCancel : M unit :=
  set {| new_tasks := None; new_events := None; new_apis := None;
         new_dragData := Some None;
         new_findingTask := None; new_inScroll := None;
         new_searchStatus := None; new_calendarMode := None;
         new_dailyNoteFormat := None; new_dailyNotePath := None;
         new_fileOrder := None; new_newTask := None; new_dayStartEnd := None;
         new_hideHeadings := None; new_muted := None;
         new_twentyFourHourFormat := None; new_collapsed := None |}.

(** The claim of the specification on a batch with a failing write:
    a write that is rejected for one id does not keep [patchTasks]
    from attempting the writes of the other ids. *)
Definition specBatchIsolation : Prop :=
  forall (s : Sys) (api : ObsidianAPI) (ids : list string)
         (task : Partial.TaskProps) (id : string),
    obsidian (apis (store s)) = Some api ->
    In id ids ->
    exists fulfilled,
      In (SaveTask (savedFor s task id) fulfilled)
         (calls (fst (patchTasks ids task s))).

(** The claim of the specification on stale references: an id with
    no record in the task table is a no-op, so [patchTasks] does what
    it does on the ids that have a record. *)
Definition specStaleNoop : Prop :=
  forall (s : Sys) (api : ObsidianAPI) (ids : list string)
         (task : Partial.TaskProps),
    obsidian (apis (store s)) = Some api ->
    patchTasks ids task s
    = patchTasks
        (List.filter (fun id => bool_decide (is_Some (tasks (store s) !! id))) ids)
        task s.

End Setters.

(** ** The drag handlers of [services/dragging]

    [App] gives the drag context three handlers: [onDragStart] and
    [onDragEnd], which it imports from [services/dragging], and the
    cancel handler above.  The module [services/dragging] is not in
    this tree. *)

(** Modelled from the spec: what a release over a drop zone does with
    the payload of the drag slot and the data of the zone (section
    4.4: it computes a schedule patch and makes the mutation call).
    It is a parameter: a cancellation does not run it. *)
Class Dragging `{Imports} := {
  DropData : Type;
  resolveDrop : option DragData -> DropData -> M unit
}.

Section Dragging.
Context `{Imports} `{!Dragging}.

(** The object literal [{ dragData }]. *)
Definition dragDataOnly (payload : option DragData) : PartialAppState :=
  {| new_tasks := None; new_events := None; new_apis := None;
     new_dragData := Some payload;
     new_findingTask := None; new_inScroll := None;
     new_searchStatus := None; new_calendarMode := None;
     new_dailyNoteFormat := None; new_dailyNotePath := None;
     new_fileOrder := None; new_newTask := None; new_dayStartEnd := None;
     new_hideHeadings := None; new_muted := None;
     new_twentyFourHourFormat := None; new_collapsed := None |}.

(** Modelled from the spec: [onDragStart] of [services/dragging].  The
    start of a gesture "records the Drag Payload into the Record
    Store's single drag slot" (section 4.4), a whole replacement of the
    slot. *)
Definition onDragStart (payload : DragData) : M unit :=
  set (dragDataOnly (Some payload)).

(** Modelled from the spec: [onDragEnd] of [services/dragging], on the
    zone the pointer is released over, [None] when it is over no zone.
    A drop outside any zone "clears the drag slot with no mutation"; a
    release over a zone is resolved on the payload of the slot, and
    "the drag slot is cleared unconditionally at the end of every drag,
    regardless of branch taken" (section 4.4). *)
Definition onDragEnd (over : option DropData) : M unit :=
  match over with
  | None => set (dragDataOnly None)
  | Some zone =>
      fun s =>
        let '(resolved, outcome) := resolveDrop (dragData (store s)) zone s in
        (fst (set (dragDataOnly None) resolved), outcome)
  end.

End Dragging.

(** ** The [Timeline] component *)

Section Timeline.
Context `{Imports}.

(** The values of an object used as a table, as [_.forEach] and
    [_.filter] visit them.  The order of the visit is that of the
    finite map, not the insertion order of the keys: the order inside
    a group is not part of this model. *)
Definition objectValues {A} (o : gmap string A) : list A :=
  (map_to_list o).*2.

(** The events selector: events that end before the window starts,
    start after it ends, or have ended by [now] are dropped. *)
Definition shownEvents (state : AppState) (startISO endISO now : string)
  : list EventProps :=
  List.filter
    (fun event =>
       negb (Js.le (Event.endISO event) startISO
             || Js.ge (Event.startISO event) endISO
             || Js.le (Event.endISO event) now))
    (objectValues (events state)).

(** [startISO.slice(0, 10) === DateTime.now().toISODate()] *)
Definition isTodayOf (startISO today : string) : bool :=
  String.eqb (Js.slice0 10 startISO) today.

(** [scheduledForToday] of the task loop. *)
Definition scheduledForToday (startISO endISO : string) (isToday : bool)
    (task : TaskProps) : bool :=
  negb (isCompleted task)
  && match Task.scheduled task with
     | Some scheduled =>
         Js.truthyStr scheduled
         && Js.lt scheduled endISO
         && (isToday || Js.ge scheduled startISO)
     | None => false
     end.

(** [task.due >= startISO || (isToday && task.due < endISO)], which
    the first branch of the task loop evaluates once [task.due] is
    known to be truthy. *)
Definition dueInWindow (startISO endISO : string) (isToday : bool)
    (task : TaskProps) : bool :=
  match Task.due task with
  | Some due => Js.ge due startISO || (isToday && Js.lt due endISO)
  | None => false
  end.

(** [!task.scheduled || task.scheduled < endISO] *)
Definition notScheduledLater (endISO : string) (task : TaskProps) : bool :=
  match Task.scheduled task with
  | Some scheduled => negb (Js.truthyStr scheduled) || Js.lt scheduled endISO
  | None => true
  end.

(** The whole condition of the first branch. *)
Definition isDueTask (startISO endISO : string) (isToday : bool)
    (task : TaskProps) : bool :=
  negb (scheduledForToday startISO endISO isToday task)
  && Js.truthy (Task.due task)
  && negb (isCompleted task)
  && dueInWindow startISO endISO isToday task
  && notScheduledLater endISO task.

(** The three arrays of the selector, in the order it returns them:
    [tasks], [dueTasks], [allDayTasks]. *)
Definition Buckets : Type := list TaskProps * list TaskProps * list TaskProps.

(** One turn of [_.forEach(state.tasks, ...)].  [invariant] throws on
    a falsy [task.scheduled]; the branch is not reachable, since
    [scheduledForToday] holds there, and the model leaves the arrays
    as they are. *)
Definition bucketTask (startISO endISO : string) (isToday : bool)
    (acc : Buckets) (task : TaskProps) : Buckets :=
  let '(tasks, dueTasks, allDayTasks) := acc in
  if isDueTask startISO endISO isToday task then
    (tasks, dueTasks ++ [task], allDayTasks)
  else if scheduledForToday startISO endISO isToday task then
    match Task.scheduled task with
    | Some scheduled =>
        if Js.gt scheduled startISO
        then (tasks ++ [task], dueTasks, allDayTasks)
        else (tasks, dueTasks, allDayTasks ++ [task])
    | None => acc
    end
  else acc.

Definition timedOf (b : Buckets) : list TaskProps := fst (fst b).
Definition dueOf (b : Buckets) : list TaskProps := snd (fst b).
Definition allDayOf (b : Buckets) : list TaskProps := snd b.

(** The test that sends a task to the [tasks] array (the timed
    ones), and the one that sends it to [allDayTasks], read off the
    second branch of [bucketTask]. *)
Definition goesToTimed (startISO endISO : string) (isToday : bool)
    (task : TaskProps) : bool :=
  scheduledForToday startISO endISO isToday task
  && match Task.scheduled task with
     | Some scheduled => Js.gt scheduled startISO
     | None => false
     end.

Definition goesToAllDay (startISO endISO : string) (isToday : bool)
    (task : TaskProps) : bool :=
  scheduledForToday startISO endISO isToday task
  && match Task.scheduled task with
     | Some scheduled => negb (Js.gt scheduled startISO)
     | None => false
     end.

(** The arrays when the loop is over, before the nested children are
    removed. *)
Definition classifyTasks (state : AppState) (startISO endISO : string)
    (isToday : bool) : Buckets :=
  fold_left (bucketTask startISO endISO isToday)
            (objectValues (tasks state)) ([], [], []).

(** Modelled from the spec: [removeNestedChildren] is imported from
    [services/util], which is not in the tree.  The spec has it prune
    from the all-day list every item whose id is the given id and
    every item whose chain of ancestors, followed through the parent
    ids, reaches the given id.  The chain is followed in the task
    table of the store; a chain that has not reached the id after as
    many steps as the table has tasks never reaches it. *)
Fixpoint reachesAncestor (fuel : nat) (table : gmap string TaskProps)
    (target : string) (current : option string) : bool :=
  match current with
  | None => false
  | Some parentId =>
      if bool_decide (parentId = target) then true
      else
        match fuel with
        | 0 => false
        | S fuel' =>
            match table !! parentId with
            | Some parentTask =>
                reachesAncestor fuel' table target (Task.parent parentTask)
            | None => false
            end
        end
  end.

(** Modelled from the spec: see [reachesAncestor]. *)
Definition hasAncestor (table : gmap string TaskProps) (target : string)
    (task : TaskProps) : bool :=
  reachesAncestor (size table) table target (Task.parent task).

(** Modelled from the spec: the chain of ancestors of an item, as a
    relation.  The chain that starts at [current] reaches [target]
    when [current] is [target], or is the id of a task of the table
    whose parent starts a chain that reaches it. *)
Inductive ancestorChain (table : gmap string TaskProps) (target : string)
  : option string -> Prop :=
| chain_here : ancestorChain table target (Some target)
| chain_up parentId parentTask :
    table !! parentId = Some parentTask ->
    ancestorChain table target (Task.parent parentTask) ->
    ancestorChain table target (Some parentId).

(** Modelled from the spec: see [reachesAncestor].  The source
    mutates the array it is given; the model returns the new array. *)
Definition removeNestedChildren (state : AppState) (id : string)
    (taskList : list TaskProps) : list TaskProps :=
  List.filter
    (fun task =>
       negb (bool_decide (Task.id task = id)
             || hasAncestor (tasks state) id task))
    taskList.

(** The tasks selector of [Timeline]. *)
Definition bucketTasks (state : AppState) (startISO endISO : string)
    (isToday : bool) : Buckets :=
  let '(tasks, dueTasks, allDayTasks) :=
    classifyTasks state startISO endISO isToday in
  let scheduledParents := map Task.id tasks in
  let allDayTasks :=
    fold_left (fun taskList id => removeNestedChildren state id taskList)
              scheduledParents allDayTasks in
  (tasks, dueTasks, allDayTasks).


(** The first half of the claim on the due array, as the
    specification states it: a task of the store that is not
    completed, is not scheduled for the window and whose [due] value
    passes the test on the window is in the due array. *)
Definition specDueRule : Prop :=
  forall (state : AppState) (startISO endISO today key : string)
         (task : TaskProps),
    let isToday := isTodayOf startISO today in
    tasks state !! key = Some task ->
    isCompleted task = false ->
    scheduledForToday startISO endISO isToday task = false ->
    (exists d, Task.due task = Some d /\ d <> ""
               /\ (Js.ge d startISO = true
                   \/ (isToday = true /\ Js.lt d endISO = true))) ->
    In task (dueOf (bucketTasks state startISO endISO isToday)).

(** The split of the shown events. *)
Definition allDayEvents (events : list EventProps) : list EventProps :=
  List.filter (fun event => isDateISO (Event.startISO event)) events.

Definition atTimeEvents (events : list EventProps) : list EventProps :=
  List.filter (fun event => negb (isDateISO (Event.startISO event))) events.

(** *** Time blocks *)

(** [_.groupBy]: the groups in the order their keys first appear. *)
Fixpoint groupInsert {A} (key : string) (x : A)
    (groups : list (string * list A)) : list (string * list A) :=
  match groups with
  | [] => [(key, [x])]
  | (k, xs) :: rest =>
      if String.eqb k key then (k, xs ++ [x]) :: rest
      else (k, xs) :: groupInsert key x rest
  end.

Definition groupBy {A} (iteratee : A -> string) (xs : list A)
  : list (string * list A) :=
  fold_left (fun groups x => groupInsert (iteratee x) x groups) xs [].

(** [_.sortBy(entries, 0)]: a stable sort on the keys. *)
Fixpoint insertByKey {A} (e : string * A) (sorted : list (string * A))
  : list (string * A) :=
  match sorted with
  | [] => [e]
  | e' :: rest =>
      if Js.le (fst e) (fst e') then e :: sorted
      else e' :: insertByKey e rest
  end.

Definition sortByKey {A} (entries : list (string * A)) : list (string * A) :=
  fold_right insertByKey [] entries.

(** [object.type === 'event' ? object.startISO : object.scheduled].
    The events are the objects whose [type] is ['event']; a task has no
    [startISO]; a key that is [undefined] becomes the string
    ["undefined"]. *)
Definition blockKey (object : TaskProps + EventProps) : string :=
  match object with
  | inl task =>
      if String.eqb (Task.type task) "event" then "undefined"
      else default "undefined" (Task.scheduled task)
  | inr event => Event.startISO event
  end.

Definition allTimeObjects (tasks : list TaskProps) (events : list EventProps)
  : list (TaskProps + EventProps) :=
  map inl tasks ++ map inr events.

Definition timeBlocks (state : AppState) (startISO endISO now today : string)
  : list (string * list (TaskProps + EventProps)) :=
  let events := shownEvents state startISO endISO now in
  let isToday := isTodayOf startISO today in
  let tasks := timedOf (bucketTasks state startISO endISO isToday) in
  let blocks := groupBy blockKey (allTimeObjects tasks (atTimeEvents events)) in
  let sortedBlocks := sortByKey blocks in
  List.filter (fun block => Js.gt (fst block) startISO) sortedBlocks.

End Timeline.

(** ** The [Group] component at the heading level *)

Section Group.

(** What a leaf of a heading group renders: a [TaskLink] or a [Task]
    element, with the props the component gives it. *)
Inductive Element :=
| TaskLinkElement (id type : string) (due : option bool) (children : list string)
| TaskElement (id type : string) (due : option bool) (children : list string).

(** The condition of the leaf:
    [['parent', 'link'].includes(task.type) ||
     (task.scheduled && (!scheduled || task.scheduled > scheduled))].
    [scheduled] is the [string | null] prop of the block. *)
Definition rendersAsLink (scheduled : option string) (task : TaskProps) : bool :=
  Js.includes ["parent"; "link"] (Task.type task)
  || match Task.scheduled task with
     | Some taskScheduled =>
         Js.truthyStr taskScheduled
         && (negb (Js.truthy scheduled)
             || match scheduled with
                | Some blockScheduled => Js.gt taskScheduled blockScheduled
                | None => false
                end)
     | None => false
     end.

Definition renderLeaf (due : option bool) (scheduled : option string)
    (task : TaskProps) : Element :=
  if rendersAsLink scheduled task
  then TaskLinkElement (Task.id task) (Task.type task) due (Task.children task)
  else TaskElement (Task.id task) (Task.type task) due (Task.children task).

(** [tasks.map((task, i) => ...)] of a group whose [level] is
    ['heading']. *)
Definition headingLeaves (tasks : list TaskProps) (due : option bool)
    (scheduled : option string) : list Element :=
  map (renderLeaf due scheduled) tasks.

Definition isTaskLink (e : Element) : bool :=
  match e with
  | TaskLinkElement _ _ _ _ => true
  | TaskElement _ _ _ _ => false
  end.

(** The leaf rule in the words of the specification: the kind is
    "parent" or "link", or the item carries a [scheduled] value
    strictly greater than the nominal scheduled time of the block. *)
Definition specLeafRule (scheduled : option string) (task : TaskProps) : Prop :=
  Task.type task = "parent" \/ Task.type task = "link"
  \/ exists taskScheduled blockScheduled,
       Task.scheduled task = Some taskScheduled
       /\ scheduled = Some blockScheduled
       /\ Js.gt taskScheduled blockScheduled = true.

(** The claim of the specification on the leaves: the element
    rendered for an item is a link exactly when [specLeafRule]
    holds. *)
Definition specLeafClaim : Prop :=
  forall (tasks : list TaskProps) (due : option bool)
         (scheduled : option string) (i : nat) (task : TaskProps),
    nth_error tasks i = Some task ->
    exists element,
      nth_error (headingLeaves tasks due scheduled) i = Some element
      /\ (isTaskLink element = true <-> specLeafRule scheduled task).

End Group.

(** ** Reading the calls of a run *)

Section Runs.

(** Whether a call is a write. *)
Definition isSaveTask (call : ApiCall) : bool :=
  match call with
  | SaveTask _ _ => true
  | PlayComplete => false
  end.

(** Whether a run returned. *)
Definition hasReturned {A} (o : Outcome A) : bool :=
  match o with
  | Returned _ => true
  | Thrown _ => false
  end.

End Runs.

(** ** What [_.groupBy] and the sort on keys are to give *)

Section GroupingSpec.
Context {A : Type}.

(** [groups] are the groups of the elements [seen]: the keys are
    distinct, and each group holds, in their order, the elements that
    the iteratee sends to its key. *)
Definition groupsOf (iteratee : A -> string)
    (groups : list (string * list A)) (seen : list A) : Prop :=
  List.NoDup (map fst groups)
  /\ forall k xs,
       In (k, xs) groups
       <-> xs = List.filter (fun x => String.eqb (iteratee x) k) seen
           /\ xs <> [].

(** The order of two entries by their keys. *)
Definition keyLe (a b : string * list A) : Prop := Js.le (fst a) (fst b) = true.
Definition keyLt (a b : string * list A) : Prop := Js.lt (fst a) (fst b) = true.

End GroupingSpec.

(** ** [_.sortBy] with several criteria

    lodash sorts on the criteria in their order, each ascending, keeps
    the order of the input between elements that no criterion tells
    apart, and puts [undefined] after every defined value. *)

Section Lodash.
Context {A : Type}.

(** [compareAscending] on two values that may be [undefined]. *)
Definition compareAscending {B} (compare : B -> B -> comparison)
    (value other : option B) : comparison :=
  match value, other with
  | Some v, Some o => compare v o
  | Some _, None => Lt
  | None, Some _ => Gt
  | None, None => Eq
  end.

(** [compareMultiple]: the first criterion that tells the two elements
    apart decides. *)
Fixpoint compareMultiple (criteria : list (A -> A -> comparison))
    (object other : A) : comparison :=
  match criteria with
  | [] => Eq
  | criterion :: rest =>
      match criterion object other with
      | Eq => compareMultiple rest object other
      | decided => decided
      end
  end.

Fixpoint insertSorted (compare : A -> A -> comparison) (x : A)
    (sorted : list A) : list A :=
  match sorted with
  | [] => [x]
  | y :: rest =>
      match compare x y with
      | Gt => y :: insertSorted compare x rest
      | _ => x :: sorted
      end
  end.

(** [_.sortBy(collection, ...iteratees)], the comparison of the
    criteria of the iteratees given. *)
Definition sortBy (criteria : list (A -> A -> comparison)) (collection : list A)
  : list A :=
  fold_right (insertSorted (compareMultiple criteria)) [] collection.

(** A comparison that orders: it is antisymmetric and its three
    outcomes compose. *)
Record Orders (compare : A -> A -> comparison) : Prop := {
  orders_antisym : forall a b, compare a b = CompOpp (compare b a);
  orders_lt : forall a b c,
    compare a b = Lt -> compare b c = Lt -> compare a c = Lt;
  orders_eq : forall a b c,
    compare a b = Eq -> compare b c = Eq -> compare a c = Eq;
  orders_eq_lt : forall a b c,
    compare a b = Eq -> compare b c = Lt -> compare a c = Lt;
  orders_lt_eq : forall a b c,
    compare a b = Lt -> compare b c = Eq -> compare a c = Lt
}.

(** [a] is not after [b]. *)
Definition notAfter (compare : A -> A -> comparison) (a b : A) : Prop :=
  compare a b <> Gt.

End Lodash.

(** ** JavaScript strings as sequences of UTF-16 code units

    A string of the program is a sequence of UTF-16 code units, and
    [<] and [>] on two strings, which [_.sortBy] uses on string
    criteria, compare them code unit by code unit.  The embedding
    holds a string as the bytes of its UTF-8 encoding.  The two orders
    differ: a character outside the basic plane is two surrogates
    (from [0xD800]) in UTF-16, below the code units from [0xE000] that
    its bytes are above.  Bytes that are the encoding of no string
    stand for no string of the program; the decoder reads them as
    [U+FFFD]. *)

Module Utf16.

(** A continuation byte of UTF-8: [10xxxxxx]. *)
Definition continuation (b : N) : bool := N.leb 128 b && N.ltb b 192.

(** The number of bytes of the sequence a byte starts; [0] for a byte
    that starts none. *)
Definition width (b : N) : nat :=
  if N.ltb b 128 then 1
  else if N.ltb b 192 then 0
  else if N.ltb b 224 then 2
  else if N.ltb b 240 then 3
  else if N.ltb b 248 then 4
  else 0.

(** The six low bits of a continuation byte. *)
Definition payload (b : N) : N := N.land b 63.

(** [U+FFFD], what a decoder gives for bytes that encode nothing. *)
Definition replacement : N := 65533.

(** The code units of a code point: itself in the basic plane, a pair
    of surrogates above it. *)
Definition unitsOf (codePoint : N) : list N :=
  if N.ltb codePoint 65536 then [codePoint]
  else if N.ltb 1114111 codePoint then [replacement]
  else
    let offset := N.sub codePoint 65536 in
    [N.add 55296 (N.shiftr offset 10); N.add 56320 (N.land offset 1023)].

(** The code units of the string whose UTF-8 encoding is [s]. *)
Fixpoint codeUnits (s : string) : list N :=
  match s with
  | EmptyString => []
  | String c0 rest =>
      let b0 := N_of_ascii c0 in
      match width b0, rest with
      | 1%nat, _ => b0 :: codeUnits rest
      | 2%nat, String c1 r1 =>
          let b1 := N_of_ascii c1 in
          if continuation b1
          then N.lor (N.shiftl (N.land b0 31) 6) (payload b1) :: codeUnits r1
          else replacement :: codeUnits rest
      | 3%nat, String c1 (String c2 r2) =>
          let b1 := N_of_ascii c1 in
          let b2 := N_of_ascii c2 in
          if continuation b1 && continuation b2
          then N.lor (N.shiftl (N.land b0 15) 12)
                 (N.lor (N.shiftl (payload b1) 6) (payload b2))
               :: codeUnits r2
          else replacement :: codeUnits rest
      | 4%nat, String c1 (String c2 (String c3 r3)) =>
          let b1 := N_of_ascii c1 in
          let b2 := N_of_ascii c2 in
          let b3 := N_of_ascii c3 in
          if continuation b1 && continuation b2 && continuation b3
          then unitsOf
                 (N.lor (N.shiftl (N.land b0 7) 18)
                    (N.lor (N.shiftl (payload b1) 12)
                       (N.lor (N.shiftl (payload b2) 6) (payload b3))))
               ++ codeUnits r3
          else replacement :: codeUnits rest
      | _, _ => replacement :: codeUnits rest
      end
  end.

(** The lexicographic order of two sequences. *)
Fixpoint lexCompare {B} (compare : B -> B -> comparison) (a b : list B)
  : comparison :=
  match a, b with
  | [], [] => Eq
  | [], _ :: _ => Lt
  | _ :: _, [] => Gt
  | x :: a', y :: b' =>
      match compare x y with
      | Eq => lexCompare compare a' b'
      | decided => decided
      end
  end.

(** The outcome of [a < b] and [a > b] on two strings: [Lt] when
    [a < b], [Gt] when [a > b], [Eq] when neither holds. *)
Definition compare (a b : string) : comparison :=
  lexCompare N.compare (codeUnits a) (codeUnits b).

(** A string of ASCII characters. *)
Fixpoint isAscii (s : string) : bool :=
  match s with
  | EmptyString => true
  | String c rest => N.ltb (N_of_ascii c) 128 && isAscii rest
  end.

End Utf16.


(** ** Objects as tables: the order of [Object.entries] *)

Module JsObject.

(** The value of a decimal digit. *)
Definition digit (c : ascii) : option N :=
  let n := N_of_ascii c in
  if N.leb 48 n && N.leb n 57 then Some (N.sub n 48) else None.

Fixpoint digits (acc : N) (s : string) : option N :=
  match s with
  | EmptyString => Some acc
  | String c rest =>
      match digit c with
      | Some d => digits (N.add (N.mul 10 acc) d) rest
      | None => None
      end
  end.

(** A key that is an array index: the decimal writing, without
    leading zero, of an integer below [2^32 - 1]. *)
Definition arrayIndex (key : string) : option N :=
  match key with
  | EmptyString => None
  | String c rest =>
      if Ascii.eqb c "0" && negb (String.eqb rest "") then None
      else
        match digits 0 key with
        | Some n => if N.ltb n 4294967295 then Some n else None
        | None => None
        end
  end.

Definition isIndex {A} (entry : string * A) : bool :=
  bool_decide (is_Some (arrayIndex (fst entry))).

(** The order of two entries whose keys are array indices. *)
Definition byIndex {A} (a b : string * A) : comparison :=
  N.compare (default 0%N (arrayIndex (fst a))) (default 0%N (arrayIndex (fst b))).

(** [Object.entries(object)] (and [_.entries]) on an object whose keys
    were created in the order of the list: the keys that are array
    indices come first, in ascending order, and the other keys follow
    in the order of their creation. *)
Definition entries {A} (object : list (string * A)) : list (string * A) :=
  fold_right (insertSorted byIndex) [] (List.filter isIndex object)
  ++ List.filter (fun entry => negb (isIndex entry)) object.

End JsObject.

(** ** The list of deadlines of [Timeline] *)

Section DueList.

(** The criterion of a string field that may be [undefined]. *)
Definition byString (field : TaskProps -> option string)
    (a b : TaskProps) : comparison :=
  compareAscending String.compare (field a) (field b).

(** [_.sortBy(dueTasks, 'due', 'scheduled')] *)
Definition sortedDueTasks (dueTasks : list TaskProps) : list TaskProps :=
  sortBy [byString Task.due; byString Task.scheduled] dueTasks.

End DueList.

(** ** The [Block] component *)

Section Block.
Context `{Imports}.

(** [_.groupBy(tasks, 'parent')], or [{ undefined: tasks }] in a block
    of children: the key of a task without parent is the string
    ["undefined"].  The keys of the object are in the order of their
    creation. *)
Definition tasksByParent (type : string) (tasks : list TaskProps)
  : list (string * list TaskProps) :=
  if Js.includes ["parent"; "child"] type
  then [("undefined", tasks)]
  else groupBy (fun task => default "undefined" (Task.parent task)) tasks.

(** [{ ...parentTask, children: children.map(x => x.id), type: 'parent' }]
    where [parentTask] is [state.tasks[parentID]], which may be
    [undefined]. *)
Definition parentGroup (parentTask : option TaskProps)
    (children : list TaskProps) : Partial.TaskProps :=
  let spreadTask := spreadMaybe parentTask in
  {| Partial.id := Partial.id spreadTask;
     Partial.type := Some "parent";
     Partial.scheduled := Partial.scheduled spreadTask;
     Partial.due := Partial.due spreadTask;
     Partial.completion := Partial.completion spreadTask;
     Partial.parent := Partial.parent spreadTask;
     Partial.children := Some (map Task.id children);
     Partial.area := Partial.area spreadTask;
     Partial.heading := Partial.heading spreadTask;
     Partial.path := Partial.path spreadTask;
     Partial.position_start_line := Partial.position_start_line spreadTask |}.

(** What one entry of [tasksByParent] gives to [flatMap]. *)
Definition nestEntry (state : AppState) (taskIds : list string)
    (entry : string * list TaskProps) : list Partial.TaskProps :=
  let '(parentID, children) := entry in
  if String.eqb parentID "undefined" then map ofTask children
  else if Js.includes taskIds parentID then []
  else [parentGroup (tasks state !! parentID) children].

(** [nestedTasks]: the selector of [Block]. *)
Definition nestedTasks (state : AppState) (type : string)
    (tasks : list TaskProps) : list Partial.TaskProps :=
  let taskIds := map Task.id tasks in
  flat_map (nestEntry state taskIds)
           (JsObject.entries (tasksByParent type tasks)).

(** The criterion ['position.start.line']. *)
Definition byLine (a b : Partial.TaskProps) : comparison :=
  compareAscending Nat.compare
    (Partial.position_start_line a) (Partial.position_start_line b).

(** The criterion [0] on the entries of an object: the key, a
    string, which [_.sortBy] compares with [<] and [>]. *)
Definition byName {A} (a b : string * A) : comparison :=
  Utf16.compare (fst a) (fst b).

(** [sortedGroups]: the nested tasks sorted by line, grouped by area,
    the entries of the groups sorted by name. *)
Definition sortedGroups (state : AppState) (type : string)
    (tasks : list TaskProps) : list (string * list Partial.TaskProps) :=
  let sortedTasks := sortBy [byLine] (nestedTasks state type tasks) in
  let groupedTasks :=
    groupBy (fun task => default "undefined" (Partial.area task)) sortedTasks in
  sortBy [byName] (JsObject.entries groupedTasks).

End Block.

(** ** The [Group] component at the group level *)

Section Headings.

Definition UNGROUPED : string := "__ungrouped".







(** The [path] prop of the [Heading] a group renders, when it renders
    one: [name && name !== UNGROUPED], and then
    [tasks[0].path + (level === 'heading' ? '#' + tasks[0].heading : '')].
    Reading [tasks[0].path] throws when [tasks] is empty. *)
Definition headingPath (name level : string) (tasks : list TaskProps)
  : Outcome (option string) :=
  if Js.truthyStr name && negb (String.eqb name UNGROUPED) then
    match tasks with
    | task :: _ =>
        Returned
          (Some (Task.path task
                 ++ (if String.eqb level "heading"
                     then "#" ++ default "undefined" (Task.heading task)
                     else ""))%string)
    | [] => Thrown TypeError
    end
  else Returned None.


End Headings.

(** ** String methods the [Heading] component uses *)

Module JsString.

(** [s.includes(pattern)] *)
Fixpoint includes (pattern s : string) : bool :=
  String.prefix pattern s
  || match s with
     | EmptyString => false
     | String _ rest => includes pattern rest
     end.

(** [s.lastIndexOf(pattern)]; [None] is the [-1] of a pattern that
    does not occur. *)
Fixpoint lastIndexOf (pattern s : string) : option nat :=
  match s with
  | EmptyString => if String.prefix pattern s then Some 0 else None
  | String _ rest =>
      match lastIndexOf pattern rest with
      | Some i => Some (S i)
      | None => if String.prefix pattern s then Some 0 else None
      end
  end.

(** The index after [s.lastIndexOf(pattern)]: [-1 + 1] is [0]. *)
Definition afterIndex (index : option nat) : nat :=
  match index with
  | Some i => S i
  | None => 0
  end.

(** [s.slice(start)] for a [start] that is not negative. *)
Fixpoint slice (start : nat) (s : string) : string :=
  match start, s with
  | 0, _ => s
  | S _, EmptyString => EmptyString
  | S start', String _ rest => slice start' rest
  end.

(** [s.replace(/pattern/, '')] for a pattern without special
    characters: the first occurrence is removed. *)
Fixpoint removeFirst (pattern s : string) : string :=
  if String.prefix pattern s then slice (String.length pattern) s
  else
    match s with
    | EmptyString => EmptyString
    | String c rest => String c (removeFirst pattern rest)
    end.

End JsString.

(** ** The [Heading] component *)

Section Heading.

(** [path.includes('#') ? 'heading' : 'group'] *)
Definition headingLevel (path : string) : string :=
  if JsString.includes "#" path then "heading" else "group".

(** The name [Heading] shows for a path. *)
Definition headingName (path : string) : string :=
  JsString.removeFirst ".md"
    (if String.eqb (headingLevel path) "heading"
     then JsString.slice
            (JsString.afterIndex (JsString.lastIndexOf "#" path)) path
     else if JsString.includes "/" path
     then JsString.slice
            (JsString.afterIndex (JsString.lastIndexOf "/" path)) path
     else path).

End Heading.

(** ** The columns of [App] *)

(** The props [App] gives to a [Timeline]. *)
Module Window.
Record t := mk {
  startISO : string;
  endISO : string;
  type : string
}.
End Window.

Section App.

(** [newChildWidth] of the resize observer, from the width of the
    ruler in pixels. *)
Definition newChildWidth (width : nat) : nat :=
  if Nat.ltb width 500 then 1
  else if Nat.ltb width 800 then 2
  else if Nat.ltb width 1200 then 3
  else 4.

Definition childWidthToClass : list string :=
  [""; "child:w-full"; "child:w-1/2"; "child:w-1/3"; "child:w-1/4"].

(** [times]: today, then tomorrow when [datesShown] is [0], or else
    the days [_.range(1, datesShown)] after today.  [isoDate i] is
    [today.plus({ days: i }).toISODate()]. *)
Definition times (isoDate : nat -> string) (datesShown : nat) : list Window.t :=
  Window.mk (isoDate 0) (isoDate 1) "minutes"
  :: (if Nat.eqb datesShown 0
      then [Window.mk (isoDate 1) (isoDate 2) "minutes"]
      else map (fun i => Window.mk (isoDate i) (isoDate (i + 1)) "minutes")
               (seq 1 (datesShown - 1))).

End App.

(** * Sample data

    One instance of the imported declarations, and a few tasks, events
    and states on which the functions above are run. *)

#[local] Instance sampleImports : Imports :=
  {| DragData := string;
     CalendarAPI := unit;
     TaskActions_DELETE := "DELETE";
     isCompleted := fun task => Js.truthy (Task.completion task);
     isDateISO := fun s => Nat.eqb (String.length s) 10 |}.

Definition sampleTask (id : string)
    (scheduled due completion parent : option string) : TaskProps :=
  Task.mk id "task" scheduled due completion parent [] "Tasks" None "Tasks.md" 0.

Definition sampleState (table : gmap string TaskProps)
    (calendarEvents : gmap string EventProps) (api : option ObsidianAPI)
    (drag : option string) : AppState :=
  {| tasks := table; events := calendarEvents;
     apis := {| obsidian := api; calendar := None |};
     dragData := drag; findingTask := None; inScroll := 0;
     searchStatus := None; calendarMode := false;
     dailyNoteFormat := "YYYY-MM-DD"; dailyNotePath := "";
     fileOrder := []; newTask := None; dayStartEnd := (0, 24);
     hideHeadings := false; muted := false;
     twentyFourHourFormat := false; collapsed := ∅ |}.

(** A collaborator that fulfils every write, and one that rejects the
    writes of the record of one id. *)
Definition acceptAll : ObsidianAPI :=
  {| saveTask := fun _ _ => true |}.

Definition rejectId (id : string) : ObsidianAPI :=
  {| saveTask := fun _ savedTask =>
       negb (bool_decide (Partial.id savedTask = Some id)) |}.

(** The window of the first day of 2024, seen on that day. *)
Definition day1 : string := "2024-01-01".
Definition day2 : string := "2024-01-02".

(** A parent with a time of day, its child with the bare date, a task
    scheduled weeks later but due on the day, a task that is only due,
    and a completed task. *)
Definition taskP : TaskProps :=
  sampleTask "P" (Some "2024-01-01T09:00") None None None.
Definition taskC : TaskProps :=
  sampleTask "C" (Some "2024-01-01") None None (Some "P").
Definition taskLater : TaskProps :=
  sampleTask "L" (Some "2024-03-01") (Some "2024-01-01") None None.
Definition taskDue : TaskProps :=
  sampleTask "D" None (Some "2024-01-01") None None.
Definition taskDone : TaskProps :=
  sampleTask "Z" (Some "2024-01-01T10:00") (Some "2024-01-01")
             (Some "2024-01-01") None.

Definition sampleTable : gmap string TaskProps :=
  list_to_map [("P", taskP); ("C", taskC); ("L", taskLater);
               ("D", taskDue); ("Z", taskDone)].

(** An event of the morning of the day, over by noon. *)
Definition morningEvent : EventProps :=
  Event.mk "e1" "2024-01-01T08:00" "2024-01-01T09:00" "Stand-up" "" "".

Definition sampleEvents : gmap string EventProps :=
  list_to_map [("e1", morningEvent)].

Definition sampleStore : AppState :=
  sampleState sampleTable sampleEvents (Some acceptAll) (Some "drag").

(** Three tasks to patch, with a collaborator that rejects the second. *)
Definition taskA : TaskProps := sampleTask "a" (Some "2024-01-01") None None None.
Definition taskB : TaskProps := sampleTask "b" (Some "2024-01-01") None None None.
Definition taskD : TaskProps := sampleTask "c" (Some "2024-01-01") None None None.

Definition batchTable : gmap string TaskProps :=
  list_to_map [("a", taskA); ("b", taskB); ("c", taskD)].

Definition batchSys : Sys :=
  {| store := sampleState batchTable ∅ (Some (rejectId "b")) None;
     calls := [] |}.

Definition acceptingSys : Sys :=
  {| store := sampleState batchTable ∅ (Some acceptAll) None;
     calls := [] |}.

(** The patch [{ scheduled: '2024-01-05' }] and the patch that deletes
    the schedule. *)
Definition reschedule : Partial.TaskProps :=
  Partial.mk None None (Some "2024-01-05") None None None None None None None None.

Definition unschedule : Partial.TaskProps :=
  Partial.mk None None (Some TaskActions_DELETE) None None None None None None None None.

(** A drop that reschedules the dragged task, whose id is the
    payload, to the date of its zone. *)
#[local] Instance sampleDragging : Dragging :=
  {| DropData := string;
     resolveDrop := fun payload zone =>
       match payload with
       | Some id =>
           patchTasks [id]
             (Partial.mk None None (Some zone) None None None None None None
                         None None)
       | None => throw TypeError
       end |}.

(** A state whose collaborator is not set yet. *)
Definition noApiSys : Sys :=
  {| store := sampleState batchTable ∅ None None; calls := [] |}.

(** An event that began the evening before the day and is still under
    way in its first hour, and a store with the two sample events. *)
Definition overnightEvent : EventProps :=
  Event.mk "e2" "2023-12-31T23:00" "2024-01-01T01:00" "Party" "" "".

Definition eventStore : AppState :=
  sampleState sampleTable
              (list_to_map [("e1", morningEvent); ("e2", overnightEvent)])
              (Some acceptAll) None.

(** The clock at midnight and a half of the day. *)
Definition halfPastMidnight : string := "2024-01-01T00:30".

(** Two tasks of one file under the heading "Next", one of another file
    without heading. *)
Definition taskNext1 : TaskProps :=
  Task.mk "n1" "task" None None None None [] "Work" (Some "Next") "Work/plan" 7.
Definition taskNext2 : TaskProps :=
  Task.mk "n2" "task" None None None None [] "Work" (Some "Next") "Work/plan" 9.

(** Two tasks whose areas start with a fullwidth letter ([U+FF21])
    and with a character outside the basic plane ([U+1F4C5]). *)
Definition taskWide : TaskProps :=
  Task.mk "w1" "task" None None None None [] "Ａ notes" None "Notes.md" 1.
Definition taskCalendar : TaskProps :=
  Task.mk "c1" "task" None None None None [] "📅 calendar" None "Notes.md" 2.


(** The days from the first of January 2024. *)
Definition sampleIsoDate (i : nat) : string :=
  nth i ["2024-01-01"; "2024-01-02"; "2024-01-03"; "2024-01-04"] "2024-01-05".

(** * Facts *)

(** ** The task loop of [Timeline] *)

Section TaskLoop.
Context `{Imports}.
Variables (startISO endISO : string) (isToday : bool).

Let step := bucketTask startISO endISO isToday.
Let sft := scheduledForToday startISO endISO isToday.

Lemma isDueTask_not_scheduled task :
  isDueTask startISO endISO isToday task = true -> sft task = false.
Proof.
  unfold isDueTask, sft. intros Hd.
  repeat (apply andb_prop in Hd; destruct Hd as [Hd ?]).
  now apply negb_true_iff.
Qed.

Lemma scheduledForToday_Some task :
  sft task = true ->
  exists scheduled, Task.scheduled task = Some scheduled.
Proof.
  unfold sft, scheduledForToday. intros Hs.
  apply andb_prop in Hs as [_ Hs].
  destruct (Task.scheduled task) as [s|]; [eauto | discriminate].
Qed.

(** [invariant(task.scheduled)] never throws in the second branch. *)
Lemma invariant_holds task :
  sft task = true -> Js.truthy (Task.scheduled task) = true.
Proof.
  unfold sft, scheduledForToday, Js.truthy. intros Hs.
  apply andb_prop in Hs as [_ Hs].
  destruct (Task.scheduled task) as [s|]; [|discriminate].
  now repeat (apply andb_prop in Hs as [Hs _]).
Qed.

Lemma step_timed acc task :
  timedOf (step acc task)
  = if goesToTimed startISO endISO isToday task then timedOf acc ++ [task] else timedOf acc.
Proof.
  unfold step, bucketTask, goesToTimed. destruct acc as [[ts ds] as_].
  fold sft.
  destruct (isDueTask startISO endISO isToday task) eqn:Hd.
  - rewrite (isDueTask_not_scheduled _ Hd). reflexivity.
  - fold sft. destruct (sft task) eqn:Hs; [|reflexivity].
    destruct (Task.scheduled task) as [s|]; [|reflexivity].
    simpl. destruct (Js.gt s startISO); reflexivity.
Qed.

Lemma step_allDay acc task :
  allDayOf (step acc task)
  = if goesToAllDay startISO endISO isToday task then allDayOf acc ++ [task] else allDayOf acc.
Proof.
  unfold step, bucketTask, goesToAllDay. destruct acc as [[ts ds] as_].
  fold sft.
  destruct (isDueTask startISO endISO isToday task) eqn:Hd.
  - rewrite (isDueTask_not_scheduled _ Hd). reflexivity.
  - fold sft. destruct (sft task) eqn:Hs; [|reflexivity].
    destruct (Task.scheduled task) as [s|]; [|reflexivity].
    simpl. destruct (Js.gt s startISO); reflexivity.
Qed.

Lemma step_due acc task :
  dueOf (step acc task)
  = if isDueTask startISO endISO isToday task
    then dueOf acc ++ [task] else dueOf acc.
Proof.
  unfold step, bucketTask. destruct acc as [[ts ds] as_].
  destruct (isDueTask startISO endISO isToday task) eqn:Hd; [reflexivity|].
  destruct (scheduledForToday startISO endISO isToday task); [|reflexivity].
  destruct (Task.scheduled task) as [s|]; [|reflexivity].
  destruct (Js.gt s startISO); reflexivity.
Qed.

(** A loop that pushes on one array the elements that pass a test
    builds the filter of its input. *)
Lemma loop_is_filter (proj : Buckets -> list TaskProps) (test : TaskProps -> bool) :
  (forall acc task,
      proj (step acc task) = if test task then proj acc ++ [task] else proj acc) ->
  forall l acc, proj (fold_left step l acc) = proj acc ++ List.filter test l.
Proof.
  intros Hstep l. induction l as [|task l IH]; intros acc; simpl.
  - now rewrite app_nil_r.
  - rewrite IH, Hstep. destruct (test task); [|reflexivity].
    now rewrite <- app_assoc.
Qed.

Lemma classify_timed state :
  timedOf (classifyTasks state startISO endISO isToday)
  = List.filter (goesToTimed startISO endISO isToday) (objectValues (tasks state)).
Proof. unfold classifyTasks. now rewrite (loop_is_filter timedOf _ step_timed). Qed.

Lemma classify_allDay state :
  allDayOf (classifyTasks state startISO endISO isToday)
  = List.filter (goesToAllDay startISO endISO isToday) (objectValues (tasks state)).
Proof. unfold classifyTasks. now rewrite (loop_is_filter allDayOf _ step_allDay). Qed.

Lemma classify_due state :
  dueOf (classifyTasks state startISO endISO isToday)
  = List.filter (isDueTask startISO endISO isToday) (objectValues (tasks state)).
Proof. unfold classifyTasks. now rewrite (loop_is_filter dueOf _ step_due). Qed.

Lemma scheduled_is_bucketed state task :
  In task (objectValues (tasks state)) ->
  sft task = true ->
  In task (timedOf (classifyTasks state startISO endISO isToday))
  \/ In task (allDayOf (classifyTasks state startISO endISO isToday)).
Proof.
  intros Hin Hs. rewrite classify_timed, classify_allDay, !filter_In.
  unfold goesToTimed, goesToAllDay. fold sft. rewrite Hs.
  destruct (scheduledForToday_Some _ Hs) as [s ->]. simpl.
  destruct (Js.gt s startISO); auto.
Qed.

(** Removing nested children only removes. *)
Lemma removeNestedChildren_incl state id taskList task :
  In task (removeNestedChildren state id taskList) -> In task taskList.
Proof. unfold removeNestedChildren. intros Hin. now apply filter_In in Hin. Qed.

Lemma prune_incl state ids taskList task :
  In task (fold_left (fun l id => removeNestedChildren state id l) ids taskList) ->
  In task taskList.
Proof.
  revert taskList. induction ids as [|id ids IH]; intros taskList Hin; simpl in *.
  - exact Hin.
  - apply IH in Hin. now apply removeNestedChildren_incl in Hin.
Qed.

Lemma bucketTasks_timed state :
  timedOf (bucketTasks state startISO endISO isToday)
  = timedOf (classifyTasks state startISO endISO isToday).
Proof.
  unfold bucketTasks.
  destruct (classifyTasks state startISO endISO isToday) as [[ts ds] as_].
  reflexivity.
Qed.

Lemma bucketTasks_due state :
  dueOf (bucketTasks state startISO endISO isToday)
  = dueOf (classifyTasks state startISO endISO isToday).
Proof.
  unfold bucketTasks.
  destruct (classifyTasks state startISO endISO isToday) as [[ts ds] as_].
  reflexivity.
Qed.

Lemma bucketTasks_allDay state :
  allDayOf (bucketTasks state startISO endISO isToday)
  = fold_left (fun l id => removeNestedChildren state id l)
      (map Task.id (timedOf (classifyTasks state startISO endISO isToday)))
      (allDayOf (classifyTasks state startISO endISO isToday)).
Proof.
  unfold bucketTasks.
  destruct (classifyTasks state startISO endISO isToday) as [[ts ds] as_].
  reflexivity.
Qed.

End TaskLoop.

(** ** The groups of [Timeline] *)

Section Buckets.
Context `{Imports}.

Lemma In_objectValues {A} (o : gmap string A) (x : A) :
  In x (objectValues o) <-> exists key, o !! key = Some x.
Proof.
  unfold objectValues. rewrite <- list_elem_of_In, list_elem_of_fmap. split.
  - intros [[key y] [-> Hin]]. exists key. now apply elem_of_map_to_list in Hin.
  - intros [key Hkey]. exists (key, x). split; [reflexivity|].
    now apply elem_of_map_to_list.
Qed.

Lemma truthyStr_true s : Js.truthyStr s = true <-> s <> "".
Proof. destruct s; simpl; split; congruence. Qed.

(** [scheduledForToday], for a task that is not completed, in
    words. *)
Lemma scheduledForToday_spec startISO endISO isToday task :
  isCompleted task = false ->
  scheduledForToday startISO endISO isToday task = true
  <-> exists s,
        Task.scheduled task = Some s /\ s <> ""
        /\ Js.lt s endISO = true
        /\ (isToday = true \/ Js.ge s startISO = true).
Proof.
  intros Hc. unfold scheduledForToday. rewrite Hc. simpl.
  destruct (Task.scheduled task) as [s|].
  - rewrite !andb_true_iff, orb_true_iff, truthyStr_true. split.
    + intros [[? ?] ?]. exists s. auto.
    + intros [s' [[= <-] [? [? ?]]]]. auto.
  - split; [discriminate|]. intros [s [? _]]. discriminate.
Qed.

(** ** C1 *)

(** C1.  For a task of the store that is not completed, the task loop
    of [Timeline] treats it as scheduled for the window exactly when
    its [scheduled] value is set (present and not the empty string,
    which is falsy), is less than [endISO], and the window is today's
    or the value is at least [startISO].  Such a task is pushed on the
    timed array when the value is strictly greater than [startISO] and
    on the all-day array otherwise, and on no array of the two when
    the condition fails.  The timed array is the one the selector
    returns. *)
Theorem timeline_scheduled_classification
    (state : AppState) (startISO endISO today key : string) (task : TaskProps) :
  let isToday := isTodayOf startISO today in
  let buckets := classifyTasks state startISO endISO isToday in
  let inWindow :=
    exists s, Task.scheduled task = Some s /\ s <> ""
              /\ Js.lt s endISO = true
              /\ (isToday = true \/ Js.ge s startISO = true) in
  let after :=
    exists s, Task.scheduled task = Some s /\ Js.gt s startISO = true in
  tasks state !! key = Some task ->
  isCompleted task = false ->
  (scheduledForToday startISO endISO isToday task = true <-> inWindow)
  /\ (In task (timedOf buckets) \/ In task (allDayOf buckets) <-> inWindow)
  /\ (In task (timedOf buckets) <-> inWindow /\ after)
  /\ (In task (allDayOf buckets) <-> inWindow /\ ~ after)
  /\ timedOf (bucketTasks state startISO endISO isToday) = timedOf buckets.
Proof.
  intros isToday buckets inWindow after Hkey Hc.
  assert (Hin : In task (objectValues (tasks state)))
    by (apply In_objectValues; eauto).
  pose proof (scheduledForToday_spec startISO endISO isToday task Hc) as Hs.
  fold inWindow in Hs.
  assert (Ht : In task (timedOf buckets) <-> inWindow /\ after).
  { unfold buckets. rewrite classify_timed, filter_In. unfold goesToTimed.
    rewrite andb_true_iff, Hs. unfold after. split.
    - intros [_ [Hw Hg]]. split; [exact Hw|].
      destruct (Task.scheduled task) as [s|]; [eauto | discriminate].
    - intros [Hw [s [Heq Hg]]]. rewrite Heq. auto. }
  assert (Ha : In task (allDayOf buckets) <-> inWindow /\ ~ after).
  { unfold buckets. rewrite classify_allDay, filter_In. unfold goesToAllDay.
    rewrite andb_true_iff, Hs. unfold after. split.
    - intros [_ [Hw Hg]]. split; [exact Hw|].
      intros [s [Heq Hgt]]. rewrite Heq, Hgt in Hg. discriminate.
    - intros [Hw Hn]. split; [exact Hin|]. split; [exact Hw|].
      destruct Hw as [s [Heq _]]. rewrite Heq.
      destruct (Js.gt s startISO) eqn:Hg; [|reflexivity].
      exfalso. apply Hn. eauto. }
  split; [exact Hs|]. split; [|split; [exact Ht|split; [exact Ha|]]].
  - rewrite Ht, Ha. split; [tauto|]. intros Hw.
    assert (Hdec : after \/ ~ after).
    { destruct Hw as [s [Heq _]]. unfold after.
      destruct (Js.gt s startISO) eqn:Hg; [left; eauto|].
      right. intros [s' [Heq' Hg']]. congruence. }
    tauto.
  - apply bucketTasks_timed.
Qed.

(** ** C4 *)

Lemma completed_not_scheduledForToday startISO endISO isToday task :
  isCompleted task = true ->
  scheduledForToday startISO endISO isToday task = false.
Proof. intros Hc. unfold scheduledForToday. now rewrite Hc. Qed.

Lemma completed_not_due startISO endISO isToday task :
  isCompleted task = true ->
  isDueTask startISO endISO isToday task = false.
Proof.
  intros Hc. unfold isDueTask. rewrite Hc. simpl.
  now rewrite andb_false_r.
Qed.

(** C4.  A task that [isCompleted] holds of is in none of the arrays
    the tasks selector returns, whatever the window and whether it is
    today's or not: not in the due array, not in the timed array, not
    in the all-day array. *)
Theorem timeline_completed_excluded
    (state : AppState) (startISO endISO : string) (isToday : bool)
    (task : TaskProps) :
  isCompleted task = true ->
  let buckets := bucketTasks state startISO endISO isToday in
  ~ In task (dueOf buckets)
  /\ ~ In task (timedOf buckets)
  /\ ~ In task (allDayOf buckets).
Proof.
  intros Hc buckets. unfold buckets.
  pose proof (completed_not_scheduledForToday startISO endISO isToday task Hc) as Hs.
  repeat split.
  - rewrite bucketTasks_due, classify_due, filter_In.
    rewrite (completed_not_due _ _ _ _ Hc). intros [_ ?]. discriminate.
  - rewrite bucketTasks_timed, classify_timed, filter_In.
    unfold goesToTimed. rewrite Hs. intros [_ ?]. discriminate.
  - rewrite bucketTasks_allDay. intros Hin. apply prune_incl in Hin.
    revert Hin. rewrite classify_allDay, filter_In.
    unfold goesToAllDay. rewrite Hs. intros [_ ?]. discriminate.
Qed.

End Buckets.

(** ** Chains of ancestors *)

Section Ancestors.
Variable target : string.

Lemma reachesAncestor_chain fuel (table : gmap string TaskProps) current :
  reachesAncestor fuel table target current = true ->
  ancestorChain table target current.
Proof.
  revert current. induction fuel as [|fuel IH]; intros [parentId|]; simpl;
    try discriminate.
  - case_bool_decide as Heq; [|discriminate]. subst. constructor.
  - case_bool_decide as Heq; [subst; constructor|].
    destruct (table !! parentId) as [parentTask|] eqn:Hlook; [|discriminate].
    intros Hr. eapply chain_up; eauto.
Qed.

Lemma reachesAncestor_weaken fuel (small big : gmap string TaskProps) current :
  small ⊆ big ->
  reachesAncestor fuel small target current = true ->
  reachesAncestor fuel big target current = true.
Proof.
  intros Hsub. revert current.
  induction fuel as [|fuel IH]; intros [parentId|]; simpl; try discriminate.
  - trivial.
  - case_bool_decide as Heq; [trivial|].
    destruct (small !! parentId) as [parentTask|] eqn:Hlook; [|discriminate].
    rewrite (lookup_weaken _ _ _ _ Hlook Hsub). apply IH.
Qed.

(** A chain that reaches the target can be cut where it comes back
    to a task it has left: either it does not visit [visited] at all,
    or its part after [visited] does not. *)
Lemma ancestorChain_cut (table : gmap string TaskProps) visited visitedTask current :
  table !! visited = Some visitedTask ->
  ancestorChain table target current ->
  ancestorChain (delete visited table) target current
  \/ ancestorChain (delete visited table) target (Task.parent visitedTask).
Proof.
  intros Hv Hchain.
  induction Hchain as [|parentId parentTask Hlook Hchain IH].
  - left. constructor.
  - destruct (decide (parentId = visited)) as [->|Hne].
    + assert (parentTask = visitedTask) as -> by congruence.
      right. tauto.
    + destruct IH as [IH|IH]; [left|right; exact IH].
      eapply chain_up; [|exact IH]. now rewrite lookup_delete_ne.
Qed.

(** As many steps as the table has tasks are enough. *)
Lemma ancestorChain_reaches fuel :
  forall (table : gmap string TaskProps) current,
    size table <= fuel ->
    ancestorChain table target current ->
    reachesAncestor fuel table target current = true.
Proof.
  induction fuel as [|fuel IH]; intros table current Hsize Hchain.
  - assert (table = ∅) as -> by (apply map_size_empty_inv; lia).
    destruct Hchain as [|parentId parentTask Hlook _].
    + simpl. now rewrite bool_decide_eq_true_2.
    + now rewrite lookup_empty in Hlook.
  - destruct Hchain as [|parentId parentTask Hlook Hchain].
    + simpl. now rewrite bool_decide_eq_true_2.
    + simpl. case_bool_decide as Heq; [reflexivity|]. rewrite Hlook.
      apply (reachesAncestor_weaken fuel (delete parentId table));
        [apply delete_subseteq|].
      apply IH.
      * rewrite map_size_delete, Hlook. simpl. lia.
      * destruct (ancestorChain_cut table parentId parentTask _ Hlook Hchain);
          assumption.
Qed.

Lemma hasAncestor_spec (table : gmap string TaskProps) task :
  hasAncestor table target task = true
  <-> ancestorChain table target (Task.parent task).
Proof.
  unfold hasAncestor. split.
  - apply reachesAncestor_chain.
  - now apply ancestorChain_reaches.
Qed.

End Ancestors.

(** ** The all-day array after the nested children are removed *)

Section Pruning.
Context `{Imports}.

Lemma In_removeNestedChildren state id taskList task :
  In task (removeNestedChildren state id taskList)
  <-> In task taskList
      /\ Task.id task <> id
      /\ ~ ancestorChain (tasks state) id (Task.parent task).
Proof.
  unfold removeNestedChildren.
  rewrite filter_In, negb_true_iff, orb_false_iff, <- hasAncestor_spec.
  rewrite bool_decide_eq_false, not_true_iff_false. reflexivity.
Qed.

Lemma In_pruned state ids taskList task :
  In task (fold_left (fun l id => removeNestedChildren state id l) ids taskList)
  <-> In task taskList
      /\ forall id, In id ids ->
           Task.id task <> id
           /\ ~ ancestorChain (tasks state) id (Task.parent task).
Proof.
  revert taskList. induction ids as [|id ids IH]; intros taskList; simpl.
  - split; [intros Hin; split; [exact Hin | intros ? []] | tauto].
  - rewrite IH, In_removeNestedChildren. split.
    + intros [[Hin Hid] Hids]. split; [exact Hin|].
      intros id' [<-|Hin']; auto.
    + intros [Hin Hids]. split; [split; [exact Hin|]|]; auto.
Qed.

(** The all-day array the selector returns holds the tasks the loop
    pushed on it that are neither a timed task nor below one. *)
Lemma In_allDay_output state startISO endISO isToday task :
  In task (allDayOf (bucketTasks state startISO endISO isToday))
  <-> In task (allDayOf (classifyTasks state startISO endISO isToday))
      /\ forall timed,
           In timed (timedOf (classifyTasks state startISO endISO isToday)) ->
           Task.id task <> Task.id timed
           /\ ~ ancestorChain (tasks state) (Task.id timed) (Task.parent task).
Proof.
  rewrite bucketTasks_allDay, In_pruned. split.
  - intros [Hin Hids]. split; [exact Hin|]. intros timed Ht.
    apply Hids. now apply in_map.
  - intros [Hin Hts]. split; [exact Hin|]. intros id Hid.
    apply in_map_iff in Hid as [timed [<- Ht]]. now apply Hts.
Qed.

(** ** C2 *)

(** C2.  With [removeNestedChildren] as the specification describes
    it: an item whose id is the id of a task of the timed array, or
    whose chain of ancestors, followed through the parent ids in the
    task table, reaches a task of the timed array, is not in the
    all-day array the selector returns.  In particular a child whose
    parent id is the id of a timed task, and which the loop pushed on
    the all-day array, is not in the all-day array that is returned. *)
Theorem timeline_nested_children_removed
    (state : AppState) (startISO endISO : string) (isToday : bool)
    (timed item : TaskProps) :
  let output := bucketTasks state startISO endISO isToday in
  In timed (timedOf output) ->
  (Task.id item = Task.id timed
   \/ ancestorChain (tasks state) (Task.id timed) (Task.parent item)
   -> ~ In item (allDayOf output))
  /\ (Task.parent item = Some (Task.id timed) ->
      In item (allDayOf (classifyTasks state startISO endISO isToday)) ->
      ~ In item (allDayOf output)).
Proof.
  intros output Htimed. unfold output in *.
  rewrite bucketTasks_timed in Htimed.
  assert (Hgen : Task.id item = Task.id timed
            \/ ancestorChain (tasks state) (Task.id timed) (Task.parent item)
            -> ~ In item (allDayOf (bucketTasks state startISO endISO isToday))).
  { intros Hcase Hin. apply In_allDay_output in Hin as [_ Hall].
    destruct (Hall timed Htimed) as [Hid Hchain]. tauto. }
  split; [exact Hgen|].
  intros Hparent _. apply Hgen. right. rewrite Hparent. constructor.
Qed.

(** ** C5 *)

Lemma dueInWindow_spec startISO endISO isToday task :
  Js.truthy (Task.due task) && dueInWindow startISO endISO isToday task = true
  <-> exists d, Task.due task = Some d /\ d <> ""
                /\ (Js.ge d startISO = true
                    \/ (isToday = true /\ Js.lt d endISO = true)).
Proof.
  unfold dueInWindow, Js.truthy. destruct (Task.due task) as [d|].
  - rewrite andb_true_iff, orb_true_iff, andb_true_iff, truthyStr_true. split.
    + intros [? ?]. exists d. auto.
    + intros [d' [[= <-] [? ?]]]. auto.
  - split; [discriminate|]. intros [d [? _]]. discriminate.
Qed.

Lemma notScheduledLater_spec endISO task :
  notScheduledLater endISO task = true
  <-> Js.truthy (Task.scheduled task) = false
      \/ exists s, Task.scheduled task = Some s /\ Js.lt s endISO = true.
Proof.
  unfold notScheduledLater, Js.truthy.
  destruct (Task.scheduled task) as [s|].
  - rewrite orb_true_iff, negb_true_iff. split.
    + intros [?|?]; [left; assumption | right; eauto].
    + intros [?|[s' [[= <-] ?]]]; auto.
  - split; auto.
Qed.

(** C5, amended.  A task of the store that is not completed, is not
    scheduled for the window, whose [due] value is set and is at
    least [startISO] or, in today's window, less than [endISO], and
    whose [scheduled] value is not set or is less than [endISO], is in
    the due array.  A task whose [scheduled] value is set and lies in
    the window, from [startISO] included to [endISO] excluded, is not
    in the due array; when it is a task of the store that is not
    completed, the loop pushes it on the timed or on the all-day
    array. *)
Theorem timeline_due_group
    (state : AppState) (startISO endISO today key : string) (task : TaskProps) :
  let isToday := isTodayOf startISO today in
  let output := bucketTasks state startISO endISO isToday in
  let classified := classifyTasks state startISO endISO isToday in
  (tasks state !! key = Some task ->
   isCompleted task = false ->
   scheduledForToday startISO endISO isToday task = false ->
   (exists d, Task.due task = Some d /\ d <> ""
              /\ (Js.ge d startISO = true
                  \/ (isToday = true /\ Js.lt d endISO = true))) ->
   (Js.truthy (Task.scheduled task) = false
    \/ exists s, Task.scheduled task = Some s /\ Js.lt s endISO = true) ->
   In task (dueOf output))
  /\ (forall s,
        Task.scheduled task = Some s -> s <> "" ->
        Js.ge s startISO = true -> Js.lt s endISO = true ->
        ~ In task (dueOf output)
        /\ (tasks state !! key = Some task -> isCompleted task = false ->
            In task (timedOf classified) \/ In task (allDayOf classified))).
Proof.
  intros isToday output classified. unfold output, classified. split.
  - intros Hkey Hc Hs Hdue Hlater.
    rewrite bucketTasks_due, classify_due, filter_In. split.
    + apply In_objectValues. eauto.
    + unfold isDueTask. rewrite Hs, Hc. simpl.
      apply dueInWindow_spec in Hdue. apply andb_prop in Hdue as [Hd Hw].
      apply notScheduledLater_spec in Hlater.
      now rewrite Hd, Hw, Hlater.
  - intros s Heq Hne Hge Hlt. split.
    + rewrite bucketTasks_due, classify_due, filter_In. intros [_ Hd].
      destruct (isCompleted task) eqn:Hc.
      * now rewrite completed_not_due in Hd.
      * apply isDueTask_not_scheduled in Hd.
        assert (Hs : scheduledForToday startISO endISO isToday task = true).
        { apply scheduledForToday_spec; [exact Hc|]. exists s. auto. }
        congruence.
    + intros Hkey Hc.
      apply scheduled_is_bucketed; [apply In_objectValues; eauto|].
      apply scheduledForToday_spec; [exact Hc|]. exists s. auto.
Qed.

End Pruning.

(** ** Events and time blocks *)

Section Blocks.
Context `{Imports}.

Lemma In_insertByKey {A} (e x : string * A) sorted :
  In x (insertByKey e sorted) <-> x = e \/ In x sorted.
Proof.
  induction sorted as [|e' rest IH]; simpl.
  - intuition congruence.
  - destruct (Js.le (fst e) (fst e')); simpl; [intuition congruence|].
    rewrite IH. intuition congruence.
Qed.

Lemma In_sortByKey {A} (x : string * A) entries :
  In x (sortByKey entries) <-> In x entries.
Proof.
  unfold sortByKey. induction entries as [|e rest IH]; simpl; [tauto|].
  rewrite In_insertByKey, IH. intuition congruence.
Qed.

(** Every member of a group is a member of some group before the
    insertion, or the element inserted. *)
Lemma In_groupInsert {A} (key : string) (x y : A) groups k block :
  In (k, block) (groupInsert key x groups) -> In y block ->
  y = x \/ exists k' block', In (k', block') groups /\ In y block'.
Proof.
  induction groups as [|[k0 xs] rest IH]; simpl.
  - intros [[= _ <-]|[]] [->|[]]. now left.
  - destruct (String.eqb k0 key); simpl.
    + intros [[= _ <-]|Hin] Hy.
      * apply in_app_or in Hy as [Hy|[->|[]]]; [right|now left].
        exists k0, xs. auto.
      * right. exists k, block. auto.
    + intros [[= <- <-]|Hin] Hy.
      * right. exists k0, xs. auto.
      * destruct (IH Hin Hy) as [->|[k' [block' [? ?]]]]; [now left|].
        right. exists k', block'. auto.
Qed.

Lemma In_groupBy {A} (iteratee : A -> string) (xs : list A) k block y :
  In (k, block) (groupBy iteratee xs) -> In y block -> In y xs.
Proof.
  unfold groupBy.
  assert (Hgen : forall groups,
             In (k, block)
                (fold_left (fun groups x => groupInsert (iteratee x) x groups)
                           xs groups) ->
             In y block ->
             In y xs \/ exists k' block', In (k', block') groups /\ In y block').
  { induction xs as [|x xs IH]; intros groups Hin Hy; simpl in *.
    - right. eauto.
    - destruct (IH _ Hin Hy) as [?|[k' [block' [Hin' Hy']]]]; [auto|].
      destruct (In_groupInsert _ _ _ _ _ _ Hin' Hy') as [->|?]; auto. }
  intros Hin Hy. destruct (Hgen [] Hin Hy) as [?|[k' [block' [[] _]]]].
  assumption.
Qed.

Lemma In_shownEvents state startISO endISO now event :
  In event (shownEvents state startISO endISO now)
  <-> In event (objectValues (events state))
      /\ Js.le (Event.endISO event) startISO = false
      /\ Js.ge (Event.startISO event) endISO = false
      /\ Js.le (Event.endISO event) now = false.
Proof.
  unfold shownEvents.
  rewrite filter_In, negb_true_iff, !orb_false_iff. tauto.
Qed.

(** An event of a time block is one of the timed events that are
    shown. *)
Lemma In_timeBlocks_event state startISO endISO now today key block event :
  In (key, block) (timeBlocks state startISO endISO now today) ->
  In (inr event) block ->
  In event (atTimeEvents (shownEvents state startISO endISO now)).
Proof.
  unfold timeBlocks. intros Hin Hev.
  apply filter_In in Hin as [Hin _]. rewrite In_sortByKey in Hin.
  pose proof (In_groupBy _ _ _ _ _ Hin Hev) as Hobj.
  unfold allTimeObjects in Hobj. apply in_app_or in Hobj as [Hobj|Hobj].
  - apply in_map_iff in Hobj as [? [? _]]. discriminate.
  - apply in_map_iff in Hobj as [? [[= ->] ?]]. assumption.
Qed.

(** ** C10 *)

(** C10.  An event whose [endISO] is less than or equal to [now] is
    not among the events [Timeline] keeps, for any window, whether
    its span meets the window or not: it is in neither the all-day
    events nor the timed events, and in no time block. *)
Theorem timeline_ended_events_excluded
    (state : AppState) (startISO endISO now today : string)
    (event : EventProps) :
  Js.le (Event.endISO event) now = true ->
  let shown := shownEvents state startISO endISO now in
  ~ In event (allDayEvents shown)
  /\ ~ In event (atTimeEvents shown)
  /\ forall key block,
       In (key, block) (timeBlocks state startISO endISO now today) ->
       ~ In (inr event) block.
Proof.
  intros Hended shown.
  assert (Hnot : ~ In event shown).
  { unfold shown. rewrite In_shownEvents. intros [_ [_ [_ Hnow]]]. congruence. }
  assert (Hat : ~ In event (atTimeEvents shown)).
  { unfold atTimeEvents. rewrite filter_In. tauto. }
  split; [|split; [exact Hat|]].
  - unfold allDayEvents. rewrite filter_In. tauto.
  - intros key block Hin Hev. apply Hat.
    eapply In_timeBlocks_event; eauto.
Qed.

End Blocks.

(** ** The leaves of a heading group *)

Section Leaves.

Lemma includes_parent_link (type : string) :
  Js.includes ["parent"; "link"] type = true
  <-> type = "parent" \/ type = "link".
Proof.
  unfold Js.includes. simpl. rewrite !orb_true_iff, !String.eqb_eq.
  intuition discriminate.
Qed.

(** [rendersAsLink] in words. *)
Lemma rendersAsLink_spec scheduled task :
  rendersAsLink scheduled task = true
  <-> Task.type task = "parent" \/ Task.type task = "link"
      \/ exists taskScheduled,
           Task.scheduled task = Some taskScheduled
           /\ taskScheduled <> ""
           /\ (Js.truthy scheduled = false
               \/ exists blockScheduled,
                    scheduled = Some blockScheduled
                    /\ Js.gt taskScheduled blockScheduled = true).
Proof.
  unfold rendersAsLink. rewrite orb_true_iff, includes_parent_link.
  destruct (Task.scheduled task) as [ts|].
  - rewrite andb_true_iff, orb_true_iff, negb_true_iff.
    destruct (Js.truthyStr ts) eqn:Hts.
    + assert (ts <> "") by (destruct ts; [discriminate | congruence]).
      split.
      * intros [?|[_ [?|Hgt]]]; [tauto| |].
        -- right; right. exists ts. auto.
        -- right; right. exists ts. split; [reflexivity|]. split; [assumption|].
           destruct scheduled as [bs|]; [|discriminate]. right. eauto.
      * intros [?|[?|[ts' [[= <-] [_ [?|[bs [-> ?]]]]]]]]; auto.
    + destruct ts; [|discriminate]. split.
      * intros [?|[? _]]; [tauto | discriminate].
      * intros [?|[?|[ts' [[= <-] [? _]]]]]; tauto.
  - split.
    + intros [?|?]; [tauto | discriminate].
    + intros [?|[?|[ts' [? _]]]]; [tauto | tauto | discriminate].
Qed.

(** ** C9 *)

(** C9, amended.  At the heading level, the element rendered for the
    i-th task of the group is a [TaskLink] exactly when the kind of
    the task is "parent" or "link", or the task carries a [scheduled]
    value that is set and the block either has no nominal scheduled
    time (it is [null] or empty) or has one that the value of the
    task is strictly greater than; it is a [Task] row otherwise, and
    carries the id, kind and children of the task in both cases. *)
Theorem group_leaf_rule
    (tasks : list TaskProps) (due : option bool) (scheduled : option string)
    (i : nat) (task : TaskProps) :
  let asLink :=
    Task.type task = "parent" \/ Task.type task = "link"
    \/ exists taskScheduled,
         Task.scheduled task = Some taskScheduled
         /\ taskScheduled <> ""
         /\ (Js.truthy scheduled = false
             \/ exists blockScheduled,
                  scheduled = Some blockScheduled
                  /\ Js.gt taskScheduled blockScheduled = true) in
  nth_error tasks i = Some task ->
  (asLink ->
   nth_error (headingLeaves tasks due scheduled) i
   = Some (TaskLinkElement (Task.id task) (Task.type task) due (Task.children task)))
  /\ (~ asLink ->
      nth_error (headingLeaves tasks due scheduled) i
      = Some (TaskElement (Task.id task) (Task.type task) due (Task.children task))).
Proof.
  intros asLink Hnth. unfold headingLeaves.
  rewrite nth_error_map, Hnth. simpl. unfold renderLeaf.
  pose proof (rendersAsLink_spec scheduled task) as Hspec. fold asLink in Hspec.
  destruct (rendersAsLink scheduled task); split; intros Hcase.
  - reflexivity.
  - exfalso. apply Hcase, Hspec. reflexivity.
  - apply Hspec in Hcase. discriminate.
  - reflexivity.
Qed.

End Leaves.

(** ** The setters of the store *)

Section PatchTasks.
Context `{Imports}.

Lemma patchLoop_cons api task id rest s :
  patchLoop (Some api) task (id :: rest) s
  = if saveTask api (calls s) (savedFor s task id)
    then patchLoop (Some api) task rest (afterSave s (savedFor s task id) true)
    else (afterSave s (savedFor s task id) false, Thrown Rejected).
Proof.
  simpl. unfold bind, getTask, bind, getState, ret, awaitSaveTask, savedFor, afterSave.
  destruct (saveTask api (calls s) _); reflexivity.
Qed.

Lemma patchLoop_store api task ids s :
  store (fst (patchLoop api task ids s)) = store s.
Proof.
  revert s. induction ids as [|id rest IH]; intros s; [reflexivity|].
  destruct api as [api|].
  - rewrite patchLoop_cons.
    destruct (saveTask api (calls s) _); [|reflexivity].
    now rewrite IH.
  - reflexivity.
Qed.

Lemma patchLoop_app api task ids1 ids2 s :
  patchLoop api task (ids1 ++ ids2) s
  = match patchLoop api task ids1 s with
    | (s1, Returned _) => patchLoop api task ids2 s1
    | (s1, Thrown e) => (s1, Thrown e)
    end.
Proof.
  revert s. induction ids1 as [|id rest IH]; intros s; [reflexivity|].
  destruct api as [api|].
  - rewrite <- app_comm_cons, !patchLoop_cons.
    destruct (saveTask api (calls s) _); [apply IH | reflexivity].
  - reflexivity.
Qed.

(** A loop that returns has made one fulfilled call for each id, in
    the order of the ids, and has left the store as it was. *)
Lemma patchLoop_returned api task ids s s1 :
  patchLoop (Some api) task ids s = (s1, Returned tt) ->
  store s1 = store s
  /\ calls s1
     = calls s ++ map (fun id => SaveTask (savedFor s task id) true) ids.
Proof.
  revert s. induction ids as [|id rest IH]; intros s.
  - intros [= <-]. simpl. now rewrite app_nil_r.
  - rewrite patchLoop_cons.
    destruct (saveTask api (calls s) _) eqn:Hok; [|discriminate].
    intros Hrest. apply IH in Hrest as [Hstore Hcalls].
    split; [exact Hstore|]. rewrite Hcalls. simpl.
    now rewrite <- app_assoc.
Qed.

Lemma patchTasks_unfold ids task s :
  patchTasks ids task s
  = match patchLoop (obsidian (apis (store s))) task ids s with
    | (s1, Returned _) =>
        if Js.truthy (Partial.completion task)
        then playComplete (obsidian (apis (store s))) s1
        else (s1, Returned tt)
    | (s1, Thrown e) => (s1, Thrown e)
    end.
Proof.
  unfold patchTasks, bind, getObsidianAPI, bind, getState, ret.
  destruct (patchLoop _ task ids s) as [s1 [[]|e]]; [|reflexivity].
  destruct (Js.truthy (Partial.completion task)); reflexivity.
Qed.

Lemma patchTasks_cons api ids task id s :
  obsidian (apis (store s)) = Some api ->
  patchTasks (id :: ids) task s
  = if saveTask api (calls s) (savedFor s task id)
    then patchTasks ids task (afterSave s (savedFor s task id) true)
    else (afterSave s (savedFor s task id) false, Thrown Rejected).
Proof.
  intros Hapi. rewrite !patchTasks_unfold. simpl store. rewrite Hapi.
  rewrite patchLoop_cons.
  destruct (saveTask api (calls s) _); reflexivity.
Qed.

Lemma spread_empty task : spread Partial.empty task = task.
Proof. destruct task as [? ? ? ? ? ? ? ? ? ? ?]. unfold spread. simpl.
       unfold spreadKey.
       repeat match goal with |- context [match ?o with Some _ => _ | None => _ end] =>
                destruct o end; reflexivity.
Qed.

End PatchTasks.

Section StoreClaims.
Context `{Imports}.

(** What a call of [patchTasks] adds to the calls of the
    collaborator: writes of the records of its ids, and the
    completion sound. *)
Lemma patchLoop_calls api task ids s :
  exists added,
    calls (fst (patchLoop api task ids s)) = calls s ++ added
    /\ forall call, In call added ->
         exists id fulfilled,
           In id ids /\ call = SaveTask (savedFor s task id) fulfilled.
Proof.
  destruct api as [api|].
  - revert s. induction ids as [|id rest IH]; intros s.
    + exists []. simpl. rewrite app_nil_r. split; [reflexivity | intros ? []].
    + rewrite patchLoop_cons.
      destruct (saveTask api (calls s) (savedFor s task id)) eqn:Hok.
      * destruct (IH (afterSave s (savedFor s task id) true))
          as [added [Hcalls Hadded]].
        exists (SaveTask (savedFor s task id) true :: added). split.
        -- rewrite Hcalls. simpl. now rewrite <- app_assoc.
        -- intros call [<-|Hin]; [exists id, true; simpl; auto|].
           destruct (Hadded call Hin) as [id' [f [Hid ->]]].
           exists id', f. simpl. auto.
      * exists [SaveTask (savedFor s task id) false]. split; [reflexivity|].
        intros call [<-|[]]. exists id, false. simpl. auto.
  - exists []. rewrite app_nil_r. split; [|intros ? []].
    destruct ids; reflexivity.
Qed.

Lemma patchTasks_calls task ids s :
  exists added,
    calls (fst (patchTasks ids task s)) = calls s ++ added
    /\ forall call, In call added ->
         call = PlayComplete
         \/ exists id fulfilled,
              In id ids /\ call = SaveTask (savedFor s task id) fulfilled.
Proof.
  rewrite patchTasks_unfold.
  destruct (patchLoop_calls (obsidian (apis (store s))) task ids s)
    as [added [Hcalls Hadded]].
  destruct (patchLoop _ task ids s) as [s1 [[]|e]] eqn:Hloop; simpl in Hcalls.
  - destruct (Js.truthy (Partial.completion task)).
    + destruct (obsidian (apis (store s))) as [api|]; simpl.
      * exists (added ++ [PlayComplete]). split.
        -- now rewrite Hcalls, <- app_assoc.
        -- intros call Hin. apply in_app_or in Hin as [Hin|[<-|[]]]; auto.
      * exists added. split; [exact Hcalls | auto].
    + exists added. split; [exact Hcalls | auto].
  - exists added. split; [exact Hcalls | auto].
Qed.

(** ** C3 *)

(** C3, amended.  [patchTasks] handles the ids one after the other,
    in their order.  When the writes of the first ids are fulfilled
    and the write of the next id is rejected, the call stops there:
    the collaborator has received one write for each of the first
    ids and one, rejected, for the failing id, none for the ids after
    it, no completion sound, and the rejection is thrown to the
    caller.  Nothing is retried and the table of the store is as it
    was. *)
Theorem patchTasks_stops_at_rejection
    (s s1 : Sys) (api : ObsidianAPI) (before after : list string)
    (id : string) (task : Partial.TaskProps) :
  obsidian (apis (store s)) = Some api ->
  patchLoop (Some api) task before s = (s1, Returned tt) ->
  saveTask api (calls s1) (savedFor s task id) = false ->
  patchTasks (before ++ id :: after) task s
  = ({| store := store s;
        calls := calls s
                 ++ map (fun i => SaveTask (savedFor s task i) true) before
                 ++ [SaveTask (savedFor s task id) false] |},
     Thrown Rejected).
Proof.
  intros Hapi Hbefore Hreject.
  rewrite patchTasks_unfold, Hapi, patchLoop_app, Hbefore, patchLoop_cons.
  destruct (patchLoop_returned _ _ _ _ _ Hbefore) as [Hstore Hcalls].
  assert (Hsaved : savedFor s1 task id = savedFor s task id)
    by (unfold savedFor; now rewrite Hstore).
  rewrite Hsaved, Hreject. unfold afterSave.
  now rewrite Hstore, Hcalls, <- app_assoc.
Qed.

(** ** C6 *)

(** C6.  When the [scheduled] key of the patch is the [DELETE]
    action and the id has a record in the table, the record given to
    [saveTask] for that id is the merge of the patch onto the record
    with the [scheduled] key removed: the key is absent, it does not
    hold the empty string or any other value.  The same holds of
    every record the call gives to [saveTask]. *)
Theorem patchTasks_delete_removes_scheduled
    (s : Sys) (api : ObsidianAPI) (id : string) (rest : list string)
    (task : Partial.TaskProps) (current : TaskProps) :
  obsidian (apis (store s)) = Some api ->
  tasks (store s) !! id = Some current ->
  Partial.scheduled task = Some TaskActions_DELETE ->
  let savedTask := deleteScheduled (spread (ofTask current) task) in
  (exists fulfilled more,
      calls (fst (patchTasks (id :: rest) task s))
      = calls s ++ SaveTask savedTask fulfilled :: more)
  /\ Partial.scheduled savedTask = None
  /\ forall ids record fulfilled,
       In (SaveTask record fulfilled) (calls (fst (patchTasks ids task s))) ->
       In (SaveTask record fulfilled) (calls s)
       \/ Partial.scheduled record = None.
Proof.
  intros Hapi Hcurrent Hdelete savedTask.
  assert (Hsaved : forall s' id', tasks (store s') !! id' = Some current ->
                     savedFor s' task id' = savedTask).
  { intros s' id' Hlook. unfold savedFor, savedTaskOf.
    rewrite Hlook, Hdelete, bool_decide_eq_true_2 by reflexivity.
    reflexivity. }
  split; [|split; [reflexivity|]].
  - rewrite (patchTasks_cons api) by exact Hapi.
    rewrite (Hsaved s id Hcurrent).
    destruct (saveTask api (calls s) savedTask).
    + destruct (patchTasks_calls task rest (afterSave s savedTask true))
        as [added [Hcalls _]].
      exists true, added. rewrite Hcalls. simpl. now rewrite <- app_assoc.
    + exists false, []. reflexivity.
  - intros ids record fulfilled Hin.
    destruct (patchTasks_calls task ids s) as [added [Hcalls Hadded]].
    rewrite Hcalls in Hin. apply in_app_or in Hin as [Hin|Hin]; [now left|].
    right. destruct (Hadded _ Hin) as [?|[id' [f [_ [= -> _]]]]]; [discriminate|].
    unfold savedFor, savedTaskOf.
    now rewrite Hdelete, bool_decide_eq_true_2.
Qed.

(** ** C8 *)

(** C8, amended.  For an id that has no record in the task table,
    [patchTasks] does not throw while it builds the record: the
    spread of [undefined] adds no key, so the record is the patch
    alone, without its [scheduled] key when that is the [DELETE]
    action.  The write is made with that record.  When it is
    fulfilled the call goes on with the ids that remain; when it is
    rejected the call stops with the rejection. *)
Theorem patchTasks_stale_id_saves_patch
    (s : Sys) (api : ObsidianAPI) (id : string) (rest : list string)
    (task : Partial.TaskProps) :
  obsidian (apis (store s)) = Some api ->
  tasks (store s) !! id = None ->
  let savedTask :=
    if bool_decide (Partial.scheduled task = Some TaskActions_DELETE)
    then deleteScheduled task else task in
  patchTasks (id :: rest) task s
  = if saveTask api (calls s) savedTask
    then patchTasks rest task (afterSave s savedTask true)
    else (afterSave s savedTask false, Thrown Rejected).
Proof.
  intros Hapi Hnone savedTask.
  rewrite (patchTasks_cons api) by exact Hapi.
  assert (Hsaved : savedFor s task id = savedTask).
  { unfold savedFor, savedTaskOf, savedTask. rewrite Hnone. simpl.
    now rewrite spread_empty. }
  now rewrite Hsaved.
Qed.

End StoreClaims.

(** ** C7 *)

Section DragCancel.
Context `{Imports} `{!Dragging}.

(** C7.  A drag is cancelled by the cancel signal of the drag context
    (the cancel handler of [App]) or by a drop outside any zone (the
    end handler, released over no zone).  In every state, each of the
    two returns, sets the [dragData] slot to [null] and leaves every
    other slot of the store as it was, and makes no call to the
    collaborator, so no task mutation is issued.  After the start of
    a drag in the state [s], which puts the payload in the slot and
    changes nothing else, each of the two gives the state [s] with an
    empty slot: the task table is the one of before the drag. *)
Theorem drag_cancel_clears_only_dragData (s : Sys) (payload : DragData) :
  let cleared :=
    {| store :=
         {| tasks := tasks (store s);
            events := events (store s);
            apis := apis (store s);
            dragData := None;
            findingTask := findingTask (store s);
            inScroll := inScroll (store s);
            searchStatus := searchStatus (store s);
            calendarMode := calendarMode (store s);
            dailyNoteFormat := dailyNoteFormat (store s);
            dailyNotePath := dailyNotePath (store s);
            fileOrder := fileOrder (store s);
            newTask := newTask (store s);
            dayStartEnd := dayStartEnd (store s);
            hideHeadings := hideHeadings (store s);
            muted := muted (store s);
            twentyFourHourFormat := twentyFourHourFormat (store s);
            collapsed := collapsed (store s) |};
       calls := calls s |} in
  let dragging := fst (onDragStart payload s) in
  (onDragCancel s = (cleared, Returned tt)
   /\ onDragEnd None s = (cleared, Returned tt))
  /\ (dragData (store dragging) = Some payload
      /\ tasks (store dragging) = tasks (store s)
      /\ calls dragging = calls s)
  /\ (onDragCancel dragging = (cleared, Returned tt)
      /\ onDragEnd None dragging = (cleared, Returned tt))
  /\ (dragData (store cleared) = None
      /\ tasks (store cleared) = tasks (store s)
      /\ calls cleared = calls s).
Proof.
  intros cleared dragging. split; [|split; [|split]].
  - split; reflexivity.
  - unfold dragging. simpl. auto.
  - split; reflexivity.
  - simpl. auto.
Qed.

End DragCancel.

(** * Runs on the sample data *)

(** The parent of the sample table has a time of day inside the window
    of the day and is a timed task. *)
Lemma timeline_scheduled_classification_witness :
  In taskP (timedOf (classifyTasks sampleStore day1 day2 (isTodayOf day1 day1))).
Proof.
  apply (timeline_scheduled_classification sampleStore day1 day2 day1 "P" taskP);
    [reflexivity | reflexivity |].
  split; exists "2024-01-01T09:00"; repeat split; try discriminate.
  now left.
Defined.

(** The child of the timed parent is pushed on the all-day array and
    removed from it. *)
Lemma timeline_nested_children_removed_witness :
  In taskC (allDayOf (classifyTasks sampleStore day1 day2 true))
  /\ ~ In taskC (allDayOf (bucketTasks sampleStore day1 day2 true)).
Proof.
  assert (Hclassified :
            In taskC (allDayOf (classifyTasks sampleStore day1 day2 true)))
    by (vm_compute; auto).
  split; [exact Hclassified|].
  apply (timeline_nested_children_removed sampleStore day1 day2 true taskP taskC);
    [vm_compute; auto | reflexivity | exact Hclassified].
Defined.

(** The completed task of the sample table is in no array. *)
Lemma timeline_completed_excluded_witness :
  ~ In taskDone (dueOf (bucketTasks sampleStore day1 day2 true))
  /\ ~ In taskDone (timedOf (bucketTasks sampleStore day1 day2 true))
  /\ ~ In taskDone (allDayOf (bucketTasks sampleStore day1 day2 true)).
Proof.
  apply (timeline_completed_excluded sampleStore day1 day2 true taskDone).
  reflexivity.
Defined.

(** The task that is only due is in the due array; the timed parent is
    not. *)
Lemma timeline_due_group_witness :
  In taskDue (dueOf (bucketTasks sampleStore day1 day2 (isTodayOf day1 day1)))
  /\ ~ In taskP (dueOf (bucketTasks sampleStore day1 day2 (isTodayOf day1 day1))).
Proof.
  split.
  - apply (timeline_due_group sampleStore day1 day2 day1 "D" taskDue);
      [reflexivity | reflexivity | reflexivity | | now left].
    exists "2024-01-01". repeat split; [discriminate | now left].
  - apply (timeline_due_group sampleStore day1 day2 day1 "P" taskP)
      with (s := "2024-01-01T09:00");
      [reflexivity | discriminate | reflexivity | reflexivity].
Defined.

(** C5 as the specification states it fails on the task that is due on
    the day but scheduled weeks later: it is not completed, not
    scheduled for the window, its due date passes the test, and it is
    not in the due array. *)
Lemma timeline_due_group_counterexample : ~ specDueRule.
Proof.
  intros Hspec.
  assert (Hin : In taskLater
                   (dueOf (bucketTasks sampleStore day1 day2 (isTodayOf day1 day1)))).
  { apply (Hspec sampleStore day1 day2 day1 "L" taskLater);
      [reflexivity | reflexivity | reflexivity |].
    exists "2024-01-01". repeat split; [discriminate | now left]. }
  vm_compute in Hin. destruct Hin as [Heq|[]]. discriminate.
Qed.

(** The morning event meets the window of the day and is over at noon:
    it is in neither list of events and in no time block. *)
Lemma timeline_ended_events_excluded_witness :
  Js.le (Event.endISO morningEvent) day1 = false
  /\ Js.ge (Event.startISO morningEvent) day2 = false
  /\ ~ In morningEvent
       (atTimeEvents (shownEvents sampleStore day1 day2 "2024-01-01T12:00"))
  /\ In morningEvent
       (atTimeEvents (shownEvents sampleStore day1 day2 "2024-01-01T07:00")).
Proof.
  split; [reflexivity|]. split; [reflexivity|]. split.
  - apply (timeline_ended_events_excluded sampleStore day1 day2
             "2024-01-01T12:00" day1 morningEvent).
    reflexivity.
  - vm_compute. auto.
Defined.

(** A batch of three ids whose second write is rejected, run. *)
Lemma batchSys_run :
  patchTasks ["a"; "b"; "c"] reschedule batchSys
  = ({| store := store batchSys;
        calls := [SaveTask (savedFor batchSys reschedule "a") true;
                  SaveTask (savedFor batchSys reschedule "b") false] |},
     Thrown Rejected).
Proof. reflexivity. Qed.

(** The same run, from the theorem. *)
Lemma patchTasks_stops_at_rejection_witness :
  patchTasks ["a"; "b"; "c"] reschedule batchSys
  = ({| store := store batchSys;
        calls := [SaveTask (savedFor batchSys reschedule "a") true;
                  SaveTask (savedFor batchSys reschedule "b") false] |},
     Thrown Rejected).
Proof.
  apply (patchTasks_stops_at_rejection batchSys
           (afterSave batchSys (savedFor batchSys reschedule "a") true)
           (rejectId "b") ["a"] ["c"] "b" reschedule);
    reflexivity.
Defined.

(** C3 as the specification states it fails on that batch: no write is
    attempted for the third id. *)
Lemma patchTasks_batch_counterexample : ~ specBatchIsolation.
Proof.
  intros Hspec.
  destruct (Hspec batchSys (rejectId "b") ["a"; "b"; "c"] reschedule "c")
    as [fulfilled Hin]; [reflexivity | simpl; auto |].
  rewrite batchSys_run in Hin.
  simpl in Hin. destruct Hin as [Heq|[Heq|[]]]; vm_compute in Heq; discriminate.
Qed.

(** The schedule of a stored task is deleted: the record that is saved
    has no [scheduled] key. *)
Lemma patchTasks_delete_removes_scheduled_witness :
  Task.scheduled taskA = Some "2024-01-01"
  /\ Partial.scheduled (deleteScheduled (spread (ofTask taskA) unschedule)) = None
  /\ exists fulfilled more,
       calls (fst (patchTasks ["a"] unschedule acceptingSys))
       = calls acceptingSys
         ++ SaveTask (deleteScheduled (spread (ofTask taskA) unschedule)) fulfilled
            :: more.
Proof.
  split; [reflexivity|].
  destruct (patchTasks_delete_removes_scheduled
              acceptingSys acceptAll "a" [] unschedule taskA)
    as [Hcall [Hkey _]]; [reflexivity | reflexivity | reflexivity |].
  split; [exact Hkey | exact Hcall].
Defined.

(** An id that the table does not have: the patch alone is saved, and
    the call goes on with the id that remains. *)
Lemma patchTasks_stale_id_saves_patch_witness :
  patchTasks ["ghost"; "a"] reschedule acceptingSys
  = patchTasks ["a"] reschedule (afterSave acceptingSys reschedule true).
Proof.
  apply (patchTasks_stale_id_saves_patch acceptingSys acceptAll "ghost" ["a"]
           reschedule);
    reflexivity.
Defined.

(** C8 as the specification states it fails on that id: a write is
    made for it. *)
Lemma patchTasks_stale_id_counterexample : ~ specStaleNoop.
Proof.
  intros Hspec.
  pose proof (Hspec acceptingSys acceptAll ["ghost"] reschedule eq_refl) as Hrun.
  apply (f_equal (fun run => length (calls (fst run)))) in Hrun.
  vm_compute in Hrun. discriminate.
Qed.

(** A plain task with a date, in a block that has no nominal scheduled
    time, is rendered as a link. *)
Lemma group_leaf_rule_witness :
  nth_error (headingLeaves [taskA] None None) 0
  = Some (TaskLinkElement "a" "task" None []).
Proof.
  apply (group_leaf_rule [taskA] None None 0 taskA); [reflexivity|].
  right; right. exists "2024-01-01". repeat split; [discriminate | now left].
Defined.

(** C9 as the specification states it fails on that task: it is
    rendered as a link, its kind is neither "parent" nor "link", and
    the block has no scheduled time its value could be greater than. *)
Lemma group_leaf_rule_counterexample : ~ specLeafClaim.
Proof.
  intros Hspec.
  destruct (Hspec [taskA] None None 0 taskA eq_refl) as [element [Hnth Hiff]].
  injection Hnth as <-.
  destruct Hiff as [Hlink _]. specialize (Hlink eq_refl).
  destruct Hlink as [Hkind|[Hkind|[ts [bs [_ [Hblock _]]]]]]; discriminate.
Qed.

(** A drag of the task [a] that is cancelled, by the signal or by a
    drop outside any zone, leaves the state as it was before the drag
    and calls nothing; released over the zone of a date, the same drag
    makes a write. *)
Lemma drag_cancel_clears_only_dragData_witness :
  onDragCancel (fst (onDragStart "a" acceptingSys)) = (acceptingSys, Returned tt)
  /\ onDragEnd None (fst (onDragStart "a" acceptingSys))
     = (acceptingSys, Returned tt)
  /\ calls (fst (onDragEnd (Some "2024-01-05") (fst (onDragStart "a" acceptingSys))))
     = [SaveTask (savedFor acceptingSys reschedule "a") true].
Proof.
  destruct (drag_cancel_clears_only_dragData acceptingSys "a")
    as [_ [_ [[Hcancel Hdrop] _]]].
  split; [exact Hcancel|]. split; [exact Hdrop|]. reflexivity.
Defined.

(** * Facts on the other functions *)

(** ** More on [patchTasks] *)

Section PatchTasksMore.
Context `{Imports}.




(** X3.  While [apis.obsidian] is not set, a call with at least one id
    throws a [TypeError] at the first write, having called nothing; a
    call with no id returns when the patch has no truthy
    [completion], and throws on the completion sound when it has one.
    The state is untouched in the three cases. *)
Theorem patchTasks_without_api
    (s : Sys) (ids : list string) (task : Partial.TaskProps) :
  obsidian (apis (store s)) = None ->
  (ids <> [] -> patchTasks ids task s = (s, Thrown TypeError))
  /\ (Js.truthy (Partial.completion task) = false ->
      patchTasks [] task s = (s, Returned tt))
  /\ (Js.truthy (Partial.completion task) = true ->
      patchTasks [] task s = (s, Thrown TypeError)).
Proof.
  intros Hapi. repeat split.
  - intros Hne. rewrite patchTasks_unfold, Hapi.
    destruct ids as [|id rest]; [congruence | reflexivity].
  - intros Hc. rewrite patchTasks_unfold, Hapi. simpl. now rewrite Hc.
  - intros Hc. rewrite patchTasks_unfold, Hapi. simpl. now rewrite Hc.
Qed.

Lemma patchLoop_writes api task ids s :
  exists writes,
    calls (fst (patchLoop api task ids s)) = calls s ++ writes
    /\ forallb isSaveTask writes = true.
Proof.
  destruct (patchLoop_calls api task ids s) as [added [Hcalls Hadded]].
  exists added. split; [exact Hcalls|].
  apply forallb_forall. intros call Hin.
  destruct (Hadded call Hin) as [id [f [_ ->]]]. reflexivity.
Qed.

(** X4.  The calls a run of [patchTasks] adds are writes, followed by
    one completion sound exactly when the run returns and the patch
    carries a truthy [completion]: a run that throws plays no sound,
    and no run plays it twice or before a write. *)
Theorem patchTasks_completion_sound
    (s : Sys) (ids : list string) (task : Partial.TaskProps) :
  exists writes,
    forallb isSaveTask writes = true
    /\ calls (fst (patchTasks ids task s))
       = calls s ++ writes
         ++ (if hasReturned (snd (patchTasks ids task s))
                && Js.truthy (Partial.completion task)
             then [PlayComplete] else []).
Proof.
  rewrite patchTasks_unfold.
  destruct (patchLoop_writes (obsidian (apis (store s))) task ids s)
    as [writes [Hcalls Hwrites]].
  exists writes. split; [exact Hwrites|].
  destruct (patchLoop _ task ids s) as [s1 [[]|e]]; simpl in Hcalls.
  - destruct (Js.truthy (Partial.completion task)).
    + destruct (obsidian (apis (store s))) as [api|]; simpl.
      * now rewrite Hcalls, <- app_assoc.
      * now rewrite Hcalls, app_nil_r.
    + simpl. now rewrite Hcalls, app_nil_r.
  - simpl. now rewrite Hcalls, app_nil_r.
Qed.

End PatchTasksMore.

(** ** [patchCollapsed] *)

Section Collapsed.
Context `{Imports}.

(** X5.  [patchCollapsed] returns, records the flag under the id in
    the collapsed map, leaves the flags of the other ids and every
    other slot of the store as they were, and calls nothing. *)
Theorem patchCollapsed_sets_one_flag
    (s : Sys) (id : string) (isCollapsed : bool) :
  snd (patchCollapsed id isCollapsed s) = Returned tt
  /\ collapsed (store (fst (patchCollapsed id isCollapsed s))) !! id
     = Some isCollapsed
  /\ (forall other, other <> id ->
        collapsed (store (fst (patchCollapsed id isCollapsed s))) !! other
        = collapsed (store s) !! other)
  /\ store (fst (patchCollapsed id isCollapsed s))
     = {| tasks := tasks (store s);
          events := events (store s);
          apis := apis (store s);
          dragData := dragData (store s);
          findingTask := findingTask (store s);
          inScroll := inScroll (store s);
          searchStatus := searchStatus (store s);
          calendarMode := calendarMode (store s);
          dailyNoteFormat := dailyNoteFormat (store s);
          dailyNotePath := dailyNotePath (store s);
          fileOrder := fileOrder (store s);
          newTask := newTask (store s);
          dayStartEnd := dayStartEnd (store s);
          hideHeadings := hideHeadings (store s);
          muted := muted (store s);
          twentyFourHourFormat := twentyFourHourFormat (store s);
          collapsed := <[id := isCollapsed]> (collapsed (store s)) |}
  /\ calls (fst (patchCollapsed id isCollapsed s)) = calls s.
Proof.
  repeat split.
  - simpl. apply lookup_insert_eq.
  - intros other Hne. simpl. now apply lookup_insert_ne.
Qed.

(** X6.  On one id the last [patchCollapsed] wins; on two different
    ids the order of two calls does not matter; and recording the flag
    an id already has changes nothing. *)
Theorem patchCollapsed_composes
    (s : Sys) (id1 id2 : string) (b1 b2 : bool) :
  fst (patchCollapsed id1 b2 (fst (patchCollapsed id1 b1 s)))
  = fst (patchCollapsed id1 b2 s)
  /\ (id1 <> id2 ->
      fst (patchCollapsed id2 b2 (fst (patchCollapsed id1 b1 s)))
      = fst (patchCollapsed id1 b1 (fst (patchCollapsed id2 b2 s))))
  /\ (collapsed (store s) !! id1 = Some b1 ->
      fst (patchCollapsed id1 b1 s) = s).
Proof.
  repeat split.
  - unfold patchCollapsed, modify, produce, setState, assign. simpl.
    now rewrite insert_insert_eq.
  - intros Hne. unfold patchCollapsed, modify, produce, setState, assign. simpl.
    now rewrite insert_insert_ne.
  - intros Hsame. unfold patchCollapsed, modify, produce, setState, assign. simpl.
    rewrite insert_id by exact Hsame.
    destruct s as [st cs]. destruct st. reflexivity.
Qed.

End Collapsed.

(** ** More on the groups of [Timeline] *)

Section BucketsMore.
Context `{Imports}.

Lemma In_timed_output state startISO endISO isToday task :
  In task (timedOf (bucketTasks state startISO endISO isToday))
  <-> In task (objectValues (tasks state))
      /\ goesToTimed startISO endISO isToday task = true.
Proof. now rewrite bucketTasks_timed, classify_timed, filter_In. Qed.

Lemma In_due_output state startISO endISO isToday task :
  In task (dueOf (bucketTasks state startISO endISO isToday))
  <-> In task (objectValues (tasks state))
      /\ isDueTask startISO endISO isToday task = true.
Proof. now rewrite bucketTasks_due, classify_due, filter_In. Qed.

Lemma In_allDay_classified state startISO endISO isToday task :
  In task (allDayOf (bucketTasks state startISO endISO isToday)) ->
  In task (objectValues (tasks state))
  /\ goesToAllDay startISO endISO isToday task = true.
Proof.
  rewrite bucketTasks_allDay. intros Hin. apply prune_incl in Hin.
  now rewrite classify_allDay, filter_In in Hin.
Qed.

(** X7.  The three arrays of the tasks selector are disjoint: no task
    is in two of them. *)
Theorem timeline_groups_disjoint
    (state : AppState) (startISO endISO : string) (isToday : bool)
    (task : TaskProps) :
  let buckets := bucketTasks state startISO endISO isToday in
  ~ (In task (dueOf buckets) /\ In task (timedOf buckets))
  /\ ~ (In task (dueOf buckets) /\ In task (allDayOf buckets))
  /\ ~ (In task (timedOf buckets) /\ In task (allDayOf buckets)).
Proof.
  intros buckets. unfold buckets. repeat split.
  - intros [Hd Ht]. apply In_due_output in Hd as [_ Hd].
    apply In_timed_output in Ht as [_ Ht].
    apply isDueTask_not_scheduled in Hd.
    unfold goesToTimed in Ht. rewrite Hd in Ht. discriminate.
  - intros [Hd Ha]. apply In_due_output in Hd as [_ Hd].
    apply In_allDay_classified in Ha as [_ Ha].
    apply isDueTask_not_scheduled in Hd.
    unfold goesToAllDay in Ha. rewrite Hd in Ha. discriminate.
  - intros [Ht Ha]. apply In_timed_output in Ht as [_ Ht].
    apply In_allDay_classified in Ha as [_ Ha].
    unfold goesToTimed, goesToAllDay in *.
    destruct (scheduledForToday startISO endISO isToday task); [|discriminate].
    destruct (Task.scheduled task) as [s|]; [|discriminate].
    simpl in *. rewrite Ht in Ha. discriminate.
Qed.

Lemma scheduledForToday_bounds startISO endISO isToday task :
  scheduledForToday startISO endISO isToday task = true ->
  isCompleted task = false
  /\ exists s, Task.scheduled task = Some s /\ s <> ""
               /\ Js.lt s endISO = true
               /\ (isToday = true \/ Js.ge s startISO = true).
Proof.
  intros Hs.
  assert (Hc : isCompleted task = false).
  { unfold scheduledForToday in Hs. apply andb_prop in Hs as [Hc _].
    now apply negb_true_iff. }
  split; [exact Hc|]. now apply scheduledForToday_spec.
Qed.

(** X8.  The selector makes no task up and shows no completed one:
    every member of one of its arrays is a task of the table that is
    not completed.  A timed task is scheduled strictly between
    [startISO] and [endISO]; an all-day task is scheduled before
    [endISO] and not after [startISO]; a due task has a [due] value
    that is set. *)
Theorem timeline_groups_sound
    (state : AppState) (startISO endISO : string) (isToday : bool)
    (task : TaskProps) :
  let buckets := bucketTasks state startISO endISO isToday in
  (In task (timedOf buckets) \/ In task (dueOf buckets)
   \/ In task (allDayOf buckets) ->
   (exists key, tasks state !! key = Some task) /\ isCompleted task = false)
  /\ (In task (timedOf buckets) ->
      exists s, Task.scheduled task = Some s
                /\ Js.gt s startISO = true /\ Js.lt s endISO = true)
  /\ (In task (allDayOf buckets) ->
      exists s, Task.scheduled task = Some s /\ s <> ""
                /\ Js.gt s startISO = false /\ Js.lt s endISO = true)
  /\ (In task (dueOf buckets) ->
      exists d, Task.due task = Some d /\ d <> "").
Proof.
  intros buckets. unfold buckets. split; [|split; [|split]].
  - intros Hin. split.
    + destruct Hin as [Ht|[Hd|Ha]].
      * apply In_timed_output in Ht as [Hin _]. now apply In_objectValues.
      * apply In_due_output in Hd as [Hin _]. now apply In_objectValues.
      * apply In_allDay_classified in Ha as [Hin _]. now apply In_objectValues.
    + destruct Hin as [Ht|[Hd|Ha]].
      * apply In_timed_output in Ht as [_ Ht]. unfold goesToTimed in Ht.
        apply andb_prop in Ht as [Hs _].
        now apply scheduledForToday_bounds in Hs.
      * apply In_due_output in Hd as [_ Hd]. unfold isDueTask in Hd.
        repeat (apply andb_prop in Hd as [Hd ?]).
        now apply negb_true_iff.
      * apply In_allDay_classified in Ha as [_ Ha]. unfold goesToAllDay in Ha.
        apply andb_prop in Ha as [Hs _].
        now apply scheduledForToday_bounds in Hs.
  - intros Ht. apply In_timed_output in Ht as [_ Ht]. unfold goesToTimed in Ht.
    apply andb_prop in Ht as [Hs Hg].
    apply scheduledForToday_bounds in Hs as [_ [s [Heq [_ [Hlt _]]]]].
    rewrite Heq in Hg. eauto.
  - intros Ha. apply In_allDay_classified in Ha as [_ Ha].
    unfold goesToAllDay in Ha. apply andb_prop in Ha as [Hs Hg].
    apply scheduledForToday_bounds in Hs as [_ [s [Heq [Hne [Hlt _]]]]].
    rewrite Heq in Hg. apply negb_true_iff in Hg. exists s. auto.
  - intros Hd. apply In_due_output in Hd as [_ Hd]. unfold isDueTask in Hd.
    repeat (apply andb_prop in Hd as [Hd ?]).
    unfold Js.truthy in *. destruct (Task.due task) as [d|]; [|discriminate].
    exists d. split; [reflexivity|]. now apply truthyStr_true.
Qed.

(** X9.  The events [Timeline] keeps are split in two: each of them is
    an all-day event or a timed event and not both, and the two lists
    hold nothing else. *)
Theorem timeline_events_split
    (state : AppState) (startISO endISO now : string) (event : EventProps) :
  let shown := shownEvents state startISO endISO now in
  (In event shown <-> In event (allDayEvents shown) \/ In event (atTimeEvents shown))
  /\ ~ (In event (allDayEvents shown) /\ In event (atTimeEvents shown)).
Proof.
  intros shown. unfold allDayEvents, atTimeEvents. rewrite !filter_In. split.
  - destruct (isDateISO (Event.startISO event)); simpl; intuition discriminate.
  - intros [[_ Ha] [_ Ht]]. rewrite Ha in Ht. discriminate.
Qed.

End BucketsMore.

(** ** The order on strings *)

Section StringOrder.

Lemma str_ltb_lt a b : Js.lt a b = true <-> OrderedTypeEx.String_as_OT.lt a b.
Proof.
  unfold Js.lt, String.ltb. rewrite <- OrderedTypeEx.String_as_OT.cmp_lt.
  unfold OrderedTypeEx.String_as_OT.cmp.
  destruct (String.compare a b); split; congruence.
Qed.

Lemma str_lt_trans a b c :
  Js.lt a b = true -> Js.lt b c = true -> Js.lt a c = true.
Proof.
  rewrite !str_ltb_lt. apply OrderedTypeEx.String_as_OT.lt_trans.
Qed.

Lemma str_lt_irrefl a : Js.lt a a = false.
Proof.
  destruct (Js.lt a a) eqn:Hlt; [|reflexivity].
  apply str_ltb_lt in Hlt.
  apply OrderedTypeEx.String_as_OT.lt_not_eq in Hlt.
  exfalso. apply Hlt. reflexivity.
Qed.

Lemma str_le_lt_or_eq a b : Js.le a b = true <-> Js.lt a b = true \/ a = b.
Proof.
  unfold Js.le, Js.lt, String.leb, String.ltb.
  destruct (String.compare a b) eqn:Hcmp.
  - apply String.compare_eq_iff in Hcmp. intuition.
  - intuition.
  - split; [discriminate|]. intros [?| ->]; [discriminate|].
    assert (Heq : String.compare b b = Eq)
      by now apply OrderedTypeEx.String_as_OT.cmp_eq.
    congruence.
Qed.

Lemma str_le_refl a : Js.le a a = true.
Proof. apply str_le_lt_or_eq. now right. Qed.

Lemma str_le_trans a b c :
  Js.le a b = true -> Js.le b c = true -> Js.le a c = true.
Proof.
  rewrite !str_le_lt_or_eq. intros [Hab| ->] [Hbc| ->]; auto.
  left. eapply str_lt_trans; eauto.
Qed.

Lemma str_le_total a b : Js.le a b = true \/ Js.le b a = true.
Proof. apply String.leb_total. Qed.

Lemma str_lt_le_trans a b c :
  Js.lt a b = true -> Js.le b c = true -> Js.lt a c = true.
Proof.
  intros Hab Hbc. apply str_le_lt_or_eq in Hbc as [Hbc| ->]; [|exact Hab].
  eapply str_lt_trans; eauto.
Qed.

Lemma str_not_le_lt a b : Js.le a b = false -> Js.lt b a = true.
Proof.
  intros Hle. destruct (str_le_total a b) as [H1|H1]; [congruence|].
  apply str_le_lt_or_eq in H1 as [H1| ->]; [exact H1|].
  now rewrite str_le_refl in Hle.
Qed.

End StringOrder.

(** ** [_.groupBy] and [_.sortBy] on entries *)

Section Grouping.
Context {A : Type}.

Lemma groupInsert_keys (key : string) (x : A) groups :
  map fst (groupInsert key x groups)
  = if Js.includes (map fst groups) key
    then map fst groups else map fst groups ++ [key].
Proof.
  unfold Js.includes.
  induction groups as [|[k xs] rest IH]; simpl; [reflexivity|].
  rewrite (String.eqb_sym key k).
  destruct (String.eqb k key); simpl; [reflexivity|].
  rewrite IH. now destruct (existsb (String.eqb key) (map fst rest)).
Qed.

Lemma includes_In (xs : list string) x :
  Js.includes xs x = true <-> In x xs.
Proof.
  unfold Js.includes. rewrite existsb_exists. split.
  - intros [y [Hin Heq]]. apply String.eqb_eq in Heq. now subst.
  - intros Hin. exists x. split; [exact Hin | apply String.eqb_refl].
Qed.

Lemma groupInsert_NoDup (key : string) (x : A) groups :
  List.NoDup (map fst groups) -> List.NoDup (map fst (groupInsert key x groups)).
Proof.
  intros Hnd. rewrite groupInsert_keys.
  destruct (Js.includes (map fst groups) key) eqn:Hin; [exact Hnd|].
  assert (Hno : ~ In key (map fst groups)).
  { intros Hk. apply includes_In in Hk. congruence. }
  clear Hin. induction (map fst groups) as [|k ks IH]; simpl.
  - constructor; [tauto | constructor].
  - inversion Hnd as [|? ? Hnotin Hnd']; subst. constructor.
    + rewrite in_app_iff. simpl. intros [?|[?|[]]]; [tauto|].
      apply Hno. now left.
    + apply IH; [exact Hnd'|]. intros ?. apply Hno. now right.
Qed.

Lemma In_key (k : string) (xs : list A) (groups : list (string * list A)) :
  In (k, xs) groups -> In k (map fst groups).
Proof. intros Hin. now apply (in_map fst) in Hin. Qed.

Lemma In_groupInsert_iff (key : string) (x : A) groups k xs :
  List.NoDup (map fst groups) ->
  In (k, xs) (groupInsert key x groups)
  <-> (k = key
       /\ ((exists ys, In (key, ys) groups /\ xs = ys ++ [x])
           \/ (~ In key (map fst groups) /\ xs = [x])))
      \/ (k <> key /\ In (k, xs) groups).
Proof.
  induction groups as [|[k0 ys0] rest IH]; intros Hnd; simpl.
  - split.
    + intros [[= <- <-]|[]]. left. split; [reflexivity|]. right. tauto.
    + intros [[-> [[ys [[] _]]|[_ ->]]]|[_ []]]. now left.
  - inversion Hnd as [|? ? Hnotin Hnd']; subst. specialize (IH Hnd').
    destruct (String.eqb k0 key) eqn:Heq.
    + apply String.eqb_eq in Heq. subst k0. simpl. split.
      * intros [[= <- <-]|Hin].
        -- left. split; [reflexivity|]. left. exists ys0. auto.
        -- right. split; [|auto]. intros ->. apply Hnotin.
           eapply In_key; eauto.
      * intros [[-> [[ys [[[= <-]|Hin] ->]]|[Hno _]]]|[Hne [[= -> _]|Hin]]].
        -- now left.
        -- exfalso. apply Hnotin. eapply In_key; eauto.
        -- exfalso. apply Hno. now left.
        -- congruence.
        -- now right.
    + apply String.eqb_neq in Heq. simpl. rewrite IH. split.
      * intros [[= <- <-]|[[-> [[ys [Hin ->]]|[Hno ->]]]|[Hne Hin]]].
        -- right. split; [exact Heq | now left].
        -- left. split; [reflexivity|]. left. exists ys. auto.
        -- left. split; [reflexivity|]. right. split; [|reflexivity].
           intros [?|?]; [congruence | tauto].
        -- right. auto.
      * intros [[-> [[ys [[[= ? _]|Hin] ->]]|[Hno ->]]]|[Hne [[= <- <-]|Hin]]].
        -- congruence.
        -- right. left. split; [reflexivity|]. left. exists ys. auto.
        -- right. left. split; [reflexivity|]. right. split; [|reflexivity]. tauto.
        -- now left.
        -- right. right. auto.
Qed.

Variable iteratee : A -> string.

Lemma groupsOf_step groups seen x :
  groupsOf iteratee groups seen ->
  groupsOf iteratee (groupInsert (iteratee x) x groups) (seen ++ [x]).
Proof.
  intros [Hnd Hgroups]. split; [now apply groupInsert_NoDup|].
  intros k xs. rewrite In_groupInsert_iff by exact Hnd.
  rewrite List.filter_app. simpl.
  destruct (String.eqb (iteratee x) k) eqn:Heq.
  - apply String.eqb_eq in Heq. subst k. split.
    + intros [[_ [[ys [Hin ->]]|[Hno ->]]]|[Hne _]]; [| |congruence].
      * apply Hgroups in Hin as [<- _]. split; [reflexivity|].
        now destruct ys.
      * split; [|discriminate].
        destruct (List.filter (fun y => String.eqb (iteratee y) (iteratee x)) seen)
          as [|y ys] eqn:Hf; [reflexivity|].
        exfalso. apply Hno.
        apply In_key with (xs := y :: ys).
        apply Hgroups. rewrite Hf. split; [reflexivity | discriminate].
    + intros [-> _]. left. split; [reflexivity|].
      destruct (List.filter (fun y => String.eqb (iteratee y) (iteratee x)) seen)
        as [|y ys] eqn:Hf.
      * right. split; [|reflexivity]. intros Hin.
        apply in_map_iff in Hin as [[k ys] [Hk Hin]]. simpl in Hk. subst k.
        apply Hgroups in Hin as [-> Hne]. congruence.
      * left. exists (y :: ys). split; [|reflexivity].
        apply Hgroups. rewrite Hf. split; [reflexivity | discriminate].
  - apply String.eqb_neq in Heq. rewrite app_nil_r, Hgroups. split.
    + intros [[-> _]|[_ ?]]; [congruence | assumption].
    + intros ?. right. split; [congruence | assumption].
Qed.

Lemma groupBy_groupsOf (xs : list A) : groupsOf iteratee (groupBy iteratee xs) xs.
Proof.
  unfold groupBy.
  assert (Hgen : forall rest groups seen,
             groupsOf iteratee groups seen ->
             groupsOf iteratee (fold_left (fun groups x => groupInsert (iteratee x) x groups)
                                 rest groups)
                      (seen ++ rest)).
  { induction rest as [|x rest IH]; intros groups seen Hinv; simpl.
    - now rewrite app_nil_r.
    - replace (seen ++ x :: rest) with ((seen ++ [x]) ++ rest)
        by now rewrite <- app_assoc.
      apply IH. now apply groupsOf_step. }
  apply (Hgen xs [] []). split; [constructor|].
  intros k ys. simpl. split; [tauto | intros [-> ?]; congruence].
Qed.

(** *** The sort on the keys *)

Lemma insertByKey_sorted (e : string * list A) sorted :
  StronglySorted keyLe sorted -> StronglySorted keyLe (insertByKey e sorted).
Proof.
  induction sorted as [|e' rest IH]; intros Hs; simpl.
  - constructor; constructor.
  - apply StronglySorted_inv in Hs as [Hrest Hall].
    destruct (Js.le (fst e) (fst e')) eqn:Hle.
    + constructor; [now constructor|]. constructor; [exact Hle|].
      eapply List.Forall_impl; [|exact Hall]. intros c Hc. unfold keyLe in *.
      eapply str_le_trans; eauto.
    + constructor; [now apply IH|].
      apply List.Forall_forall. intros c Hc. apply In_insertByKey in Hc as [->|Hc].
      * unfold keyLe. apply str_le_lt_or_eq. left. now apply str_not_le_lt.
      * rewrite List.Forall_forall in Hall. now apply Hall.
Qed.

Lemma sortByKey_sorted (entries : list (string * list A)) :
  StronglySorted keyLe (sortByKey entries).
Proof.
  unfold sortByKey. induction entries as [|e rest IH]; simpl; [constructor|].
  now apply insertByKey_sorted.
Qed.

Lemma insertByKey_perm (e : string * list A) sorted :
  Permutation (insertByKey e sorted) (e :: sorted).
Proof.
  induction sorted as [|e' rest IH]; simpl; [reflexivity|].
  destruct (Js.le (fst e) (fst e')); [reflexivity|].
  rewrite IH. apply perm_swap.
Qed.

Lemma sortByKey_perm (entries : list (string * list A)) :
  Permutation (sortByKey entries) entries.
Proof.
  unfold sortByKey. induction entries as [|e rest IH]; simpl; [reflexivity|].
  now rewrite insertByKey_perm, IH.
Qed.

Lemma filter_sorted (R : relation (string * list A)) keep l :
  StronglySorted R l -> StronglySorted R (List.filter keep l).
Proof.
  induction l as [|a l IH]; intros Hs; simpl; [constructor|].
  apply StronglySorted_inv in Hs as [Hl Hall].
  destruct (keep a); [|now apply IH].
  constructor; [now apply IH|].
  apply List.Forall_forall. intros c Hc. apply filter_In in Hc as [Hc _].
  rewrite List.Forall_forall in Hall. now apply Hall.
Qed.

Lemma sorted_strict (l : list (string * list A)) :
  List.NoDup (map fst l) -> StronglySorted keyLe l -> StronglySorted keyLt l.
Proof.
  induction l as [|a l IH]; intros Hnd Hs; [constructor|].
  simpl in Hnd. inversion Hnd as [|? ? Hnotin Hnd']; subst.
  apply StronglySorted_inv in Hs as [Hl Hall].
  constructor; [now apply IH|].
  apply List.Forall_forall. intros c Hc. rewrite List.Forall_forall in Hall.
  specialize (Hall c Hc). unfold keyLe, keyLt in *.
  apply str_le_lt_or_eq in Hall as [Hlt|Heq]; [exact Hlt|].
  exfalso. apply Hnotin. rewrite Heq. destruct c. eapply In_key; eauto.
Qed.

Lemma filter_keys_NoDup keep (l : list (string * list A)) :
  List.NoDup (map fst l) -> List.NoDup (map fst (List.filter keep l)).
Proof.
  induction l as [|a l IH]; intros Hnd; simpl; [constructor|].
  simpl in Hnd. inversion Hnd as [|? ? Hnotin Hnd']; subst.
  destruct (keep a); [|now apply IH].
  simpl. constructor; [|now apply IH].
  intros Hin. apply Hnotin. apply in_map_iff in Hin as [c [Hc Hin]].
  apply filter_In in Hin as [Hin _]. rewrite <- Hc. now apply in_map.
Qed.

End Grouping.

(** ** The time blocks of [Timeline] *)

Section TimeBlocks.
Context `{Imports}.
Variables (state : AppState) (startISO endISO now today : string).

Let objects :=
  allTimeObjects
    (timedOf (bucketTasks state startISO endISO (isTodayOf startISO today)))
    (atTimeEvents (shownEvents state startISO endISO now)).

Lemma In_timeBlocks key block :
  In (key, block) (timeBlocks state startISO endISO now today)
  <-> block = List.filter (fun o => String.eqb (blockKey o) key) objects
      /\ block <> []
      /\ Js.gt key startISO = true.
Proof.
  unfold timeBlocks. rewrite filter_In, In_sortByKey. fold objects.
  destruct (groupBy_groupsOf blockKey objects) as [_ Hgroups].
  rewrite Hgroups. simpl. tauto.
Qed.

Lemma timeBlocks_keys_NoDup :
  List.NoDup (map fst (timeBlocks state startISO endISO now today)).
Proof.
  unfold timeBlocks. apply filter_keys_NoDup. fold objects.
  destruct (groupBy_groupsOf blockKey objects) as [Hnd _].
  eapply Permutation_NoDup; [|exact Hnd].
  apply Permutation_map. symmetry. apply sortByKey_perm.
Qed.

(** X10.  The time blocks come in strictly ascending order of their
    keys, so no key occurs twice, and every key is strictly greater
    than [startISO]. *)
Theorem timeline_time_blocks_ascending :
  StronglySorted keyLt (timeBlocks state startISO endISO now today)
  /\ Forall (fun block => Js.gt (fst block) startISO = true)
            (timeBlocks state startISO endISO now today).
Proof.
  split.
  - apply sorted_strict; [apply timeBlocks_keys_NoDup|].
    unfold timeBlocks. apply filter_sorted, sortByKey_sorted.
  - apply List.Forall_forall. intros [key block] Hin.
    now apply In_timeBlocks in Hin.
Qed.

(** X11.  A time block is never empty and holds exactly the timed
    tasks and timed events whose key is the key of the block, the
    tasks before the events; an object is in at most one block. *)
Theorem timeline_time_block_contents
    (key : string) (block : list (TaskProps + EventProps)) :
  In (key, block) (timeBlocks state startISO endISO now today) ->
  block <> []
  /\ block
     = List.filter (fun o => String.eqb (blockKey o) key)
         (allTimeObjects
            (timedOf (bucketTasks state startISO endISO (isTodayOf startISO today)))
            (atTimeEvents (shownEvents state startISO endISO now)))
  /\ forall key' block' o,
       In (key', block') (timeBlocks state startISO endISO now today) ->
       In o block -> In o block' -> key' = key /\ block' = block.
Proof.
  intros Hin. apply In_timeBlocks in Hin as [Hblock [Hne _]].
  split; [exact Hne|]. split; [exact Hblock|].
  intros key' block' o Hin' Ho Ho'.
  apply In_timeBlocks in Hin' as [Hblock' _].
  rewrite Hblock in Ho. rewrite Hblock' in Ho'.
  apply filter_In in Ho as [_ Hk]. apply filter_In in Ho' as [_ Hk'].
  apply String.eqb_eq in Hk, Hk'. assert (Heq : key' = key) by congruence.
  split; [exact Heq|]. rewrite Hblock, Hblock', Heq. reflexivity.
Qed.

Lemma In_objects_block o :
  In o objects -> Js.gt (blockKey o) startISO = true ->
  exists block,
    In (blockKey o, block) (timeBlocks state startISO endISO now today)
    /\ In o block.
Proof.
  intros Hin Hgt.
  exists (List.filter (fun o' => String.eqb (blockKey o') (blockKey o)) objects).
  assert (Ho : In o (List.filter
                       (fun o' => String.eqb (blockKey o') (blockKey o)) objects)).
  { apply filter_In. split; [exact Hin | apply String.eqb_refl]. }
  split; [|exact Ho]. apply In_timeBlocks. split; [reflexivity|].
  split; [|exact Hgt]. intros Hnil. rewrite Hnil in Ho. exact Ho.
Qed.

(** X12.  No timed task is lost on the way to the blocks: every task
    of the timed array, unless its [type] is ['event'], is in the
    block whose key is its [scheduled] value. *)
Theorem timeline_timed_task_has_block (task : TaskProps) :
  In task (timedOf (bucketTasks state startISO endISO (isTodayOf startISO today))) ->
  Task.type task <> "event" ->
  exists scheduled block,
    Task.scheduled task = Some scheduled
    /\ In (scheduled, block) (timeBlocks state startISO endISO now today)
    /\ In (inl task) block.
Proof.
  intros Hin Htype.
  assert (Hgoes : goesToTimed startISO endISO (isTodayOf startISO today) task = true).
  { rewrite bucketTasks_timed, classify_timed, filter_In in Hin. tauto. }
  unfold goesToTimed in Hgoes. apply andb_prop in Hgoes as [_ Hgt].
  destruct (Task.scheduled task) as [s|] eqn:Hs; [|discriminate].
  assert (Hkey : blockKey (inl task) = s).
  { simpl. apply String.eqb_neq in Htype. now rewrite Htype, Hs. }
  destruct (In_objects_block (inl task)) as [block [Hblock Ho]].
  - unfold objects, allTimeObjects. apply in_or_app. left. now apply in_map.
  - now rewrite Hkey.
  - rewrite Hkey in Hblock. eauto.
Qed.

(** X13.  A timed event that is shown is in a time block exactly when
    it starts strictly after [startISO], and then in the block whose
    key is its start.  An event that is under way when the window
    starts is therefore in no block, and it is not among the all-day
    events either. *)
Theorem timeline_event_block (event : EventProps) :
  In event (atTimeEvents (shownEvents state startISO endISO now)) ->
  ((exists key block,
       In (key, block) (timeBlocks state startISO endISO now today)
       /\ In (inr event) block)
   <-> Js.gt (Event.startISO event) startISO = true)
  /\ (forall key block,
        In (key, block) (timeBlocks state startISO endISO now today) ->
        In (inr event) block -> key = Event.startISO event)
  /\ ~ In event (allDayEvents (shownEvents state startISO endISO now)).
Proof.
  intros Hin.
  assert (Hkey : forall key block,
             In (key, block) (timeBlocks state startISO endISO now today) ->
             In (inr event) block ->
             key = Event.startISO event /\ Js.gt key startISO = true).
  { intros key block Hblock Ho.
    apply In_timeBlocks in Hblock as [-> [_ Hgt]].
    apply filter_In in Ho as [_ Hk]. apply String.eqb_eq in Hk.
    simpl in Hk. now subst key. }
  split; [|split].
  - split.
    + intros [key [block [Hblock Ho]]].
      destruct (Hkey key block Hblock Ho) as [-> Hgt]. exact Hgt.
    + intros Hgt. destruct (In_objects_block (inr event)) as [block [Hblock Ho]].
      * unfold objects, allTimeObjects. apply in_or_app. right. now apply in_map.
      * exact Hgt.
      * eauto.
  - intros key block Hblock Ho. now destruct (Hkey key block Hblock Ho).
  - unfold atTimeEvents, allDayEvents in *. rewrite filter_In in *.
    intros [_ Ha]. destruct Hin as [_ Ht]. rewrite Ha in Ht. discriminate.
Qed.

End TimeBlocks.

(** ** Comparisons that order, and the sort *)

Section OrdersFacts.

Lemma string_compare_refl s : String.compare s s = Eq.
Proof. now apply OrderedTypeEx.String_as_OT.cmp_eq. Qed.

Lemma Orders_string : Orders String.compare.
Proof.
  assert (Hlt : forall a b c, String.compare a b = Lt -> String.compare b c = Lt ->
                              String.compare a c = Lt).
  { intros a b c Hab Hbc.
    apply OrderedTypeEx.String_as_OT.cmp_lt.
    apply OrderedTypeEx.String_as_OT.cmp_lt in Hab, Hbc.
    eapply OrderedTypeEx.String_as_OT.lt_trans; eauto. }
  constructor.
  - apply String.compare_antisym.
  - exact Hlt.
  - intros a b c Hab Hbc. apply String.compare_eq_iff in Hab, Hbc. subst.
    apply string_compare_refl.
  - intros a b c Hab Hbc. apply String.compare_eq_iff in Hab. now subst.
  - intros a b c Hab Hbc. apply String.compare_eq_iff in Hbc. now subst.
Qed.

Lemma Orders_nat : Orders Nat.compare.
Proof.
  constructor.
  - intros a b. apply Nat.compare_antisym.
  - intros a b c. rewrite !Nat.compare_lt_iff. lia.
  - intros a b c. rewrite !Nat.compare_eq_iff. lia.
  - intros a b c. rewrite Nat.compare_eq_iff, !Nat.compare_lt_iff. lia.
  - intros a b c. rewrite Nat.compare_eq_iff, !Nat.compare_lt_iff. lia.
Qed.

Lemma Orders_compareAscending {B} (compare : B -> B -> comparison) :
  Orders compare -> Orders (compareAscending compare).
Proof.
  intros [Hanti Hlt Heq Heqlt Hlteq]. constructor.
  - intros [a|] [b|]; simpl; auto.
  - intros [a|] [b|] [c|]; simpl; try discriminate; eauto.
  - intros [a|] [b|] [c|]; simpl; try discriminate; eauto.
  - intros [a|] [b|] [c|]; simpl; try discriminate; eauto.
  - intros [a|] [b|] [c|]; simpl; try discriminate; eauto.
Qed.

Lemma Orders_on {A B} (field : A -> B) (compare : B -> B -> comparison) :
  Orders compare -> Orders (fun a b => compare (field a) (field b)).
Proof.
  intros [Hanti Hlt Heq Heqlt Hlteq]. constructor; eauto.
Qed.

Lemma Orders_compareMultiple {A} (criteria : list (A -> A -> comparison)) :
  Forall Orders criteria -> Orders (compareMultiple criteria).
Proof.
  induction criteria as [|criterion rest IH]; intros Hall.
  - constructor; simpl; intros; congruence.
  - apply Forall_cons_1 in Hall as [[Hanti Hlt Heq Heqlt Hlteq] Hrest].
    destruct (IH Hrest) as [Ranti Rlt Req Reqlt Rlteq].
    constructor; simpl.
    + intros a b. rewrite (Hanti a b), (Ranti a b).
      now destruct (criterion b a).
    + intros a b c.
      destruct (criterion a b) eqn:Hab, (criterion b c) eqn:Hbc;
        try discriminate; intros H1 H2.
      * rewrite (Heq _ _ _ Hab Hbc). eauto.
      * now rewrite (Heqlt _ _ _ Hab Hbc).
      * now rewrite (Hlteq _ _ _ Hab Hbc).
      * now rewrite (Hlt _ _ _ Hab Hbc).
    + intros a b c.
      destruct (criterion a b) eqn:Hab, (criterion b c) eqn:Hbc;
        try discriminate; intros H1 H2.
      rewrite (Heq _ _ _ Hab Hbc). eauto.
    + intros a b c.
      destruct (criterion a b) eqn:Hab, (criterion b c) eqn:Hbc;
        try discriminate; intros H1 H2.
      * rewrite (Heq _ _ _ Hab Hbc). eauto.
      * now rewrite (Heqlt _ _ _ Hab Hbc).
    + intros a b c.
      destruct (criterion a b) eqn:Hab, (criterion b c) eqn:Hbc;
        try discriminate; intros H1 H2.
      * rewrite (Heq _ _ _ Hab Hbc). eauto.
      * now rewrite (Hlteq _ _ _ Hab Hbc).
Qed.

Context {A : Type} (compare : A -> A -> comparison).
Hypothesis compare_orders : Orders compare.

Lemma notAfter_trans a b c :
  notAfter compare a b -> notAfter compare b c -> notAfter compare a c.
Proof.
  destruct compare_orders as [Hanti Hlt Heq Heqlt Hlteq].
  unfold notAfter.
  destruct (compare a b) eqn:Hab, (compare b c) eqn:Hbc; try congruence;
    intros _ _.
  - now rewrite (Heq _ _ _ Hab Hbc).
  - now rewrite (Heqlt _ _ _ Hab Hbc).
  - now rewrite (Hlteq _ _ _ Hab Hbc).
  - now rewrite (Hlt _ _ _ Hab Hbc).
Qed.

Lemma after_notAfter a b : compare a b = Gt -> notAfter compare b a.
Proof.
  destruct compare_orders as [Hanti _ _ _ _].
  unfold notAfter. rewrite (Hanti b a). intros ->. discriminate.
Qed.

Lemma In_insertSorted x y sorted :
  In y (insertSorted compare x sorted) <-> y = x \/ In y sorted.
Proof.
  induction sorted as [|z rest IH]; simpl; [intuition congruence|].
  destruct (compare x z); simpl; rewrite ?IH; intuition congruence.
Qed.

Lemma insertSorted_sorted x sorted :
  StronglySorted (notAfter compare) sorted ->
  StronglySorted (notAfter compare) (insertSorted compare x sorted).
Proof.
  induction sorted as [|y rest IH]; intros Hs; simpl.
  - constructor; constructor.
  - apply StronglySorted_inv in Hs as [Hrest Hall].
    assert (Hbefore : notAfter compare x y ->
              StronglySorted (notAfter compare) (x :: y :: rest)).
    { intros Hxy. constructor; [now constructor|]. constructor; [exact Hxy|].
      eapply List.Forall_impl; [|exact Hall]. intros c Hc.
      eapply notAfter_trans; eauto. }
    destruct (compare x y) eqn:Hxy.
    + apply Hbefore. unfold notAfter. congruence.
    + apply Hbefore. unfold notAfter. congruence.
    + constructor; [now apply IH|].
      apply List.Forall_forall. intros c Hc.
      apply In_insertSorted in Hc as [->|Hc].
      * now apply after_notAfter.
      * rewrite List.Forall_forall in Hall. now apply Hall.
Qed.

Lemma insertSorted_perm x sorted :
  Permutation (insertSorted compare x sorted) (x :: sorted).
Proof.
  induction sorted as [|y rest IH]; simpl; [reflexivity|].
  destruct (compare x y); try reflexivity.
  rewrite IH. apply perm_swap.
Qed.

End OrdersFacts.

Section SortByFacts.
Context {A : Type} (criteria : list (A -> A -> comparison)).

Lemma sortBy_perm (collection : list A) :
  Permutation (sortBy criteria collection) collection.
Proof.
  unfold sortBy. induction collection as [|x rest IH]; simpl; [reflexivity|].
  now rewrite insertSorted_perm, IH.
Qed.

Lemma sortBy_sorted (collection : list A) :
  Forall Orders criteria ->
  StronglySorted (notAfter (compareMultiple criteria)) (sortBy criteria collection).
Proof.
  intros Hall. apply Orders_compareMultiple in Hall.
  unfold sortBy. induction collection as [|x rest IH]; simpl; [constructor|].
  now apply insertSorted_sorted.
Qed.

Lemma In_sortBy (collection : list A) x :
  In x (sortBy criteria collection) <-> In x collection.
Proof.
  split; apply Permutation_in; [|symmetry]; apply sortBy_perm.
Qed.

End SortByFacts.

Section SortedLists.
Context {A : Type}.

Lemma filter_StronglySorted (R : A -> A -> Prop) keep l :
  StronglySorted R l -> StronglySorted R (List.filter keep l).
Proof.
  induction l as [|a l IH]; intros Hs; simpl; [constructor|].
  apply StronglySorted_inv in Hs as [Hl Hall].
  destruct (keep a); [|now apply IH].
  constructor; [now apply IH|].
  apply List.Forall_forall. intros c Hc. apply filter_In in Hc as [Hc _].
  rewrite List.Forall_forall in Hall. now apply Hall.
Qed.

(** A sorted list is sorted for every weaker relation that holds
    between its elements. *)
Lemma StronglySorted_weaken (R S : A -> A -> Prop) l :
  (forall a b, In a l -> In b l -> R a b -> S a b) ->
  StronglySorted R l -> StronglySorted S l.
Proof.
  induction l as [|a l IH]; intros Himp Hs; [constructor|].
  apply StronglySorted_inv in Hs as [Hl Hall]. constructor.
  - apply IH; [|exact Hl]. intros x y Hx Hy. apply Himp; now right.
  - apply List.Forall_forall. intros c Hc.
    rewrite List.Forall_forall in Hall.
    apply Himp; [now left | now right | now apply Hall].
Qed.

End SortedLists.

(** ** The order of the code units *)

Section Utf16Facts.

Lemma Orders_N : Orders N.compare.
Proof.
  constructor.
  - intros a b. apply N.compare_antisym.
  - intros a b c. rewrite !N.compare_lt_iff. lia.
  - intros a b c. rewrite !N.compare_eq_iff. lia.
  - intros a b c. rewrite N.compare_eq_iff, !N.compare_lt_iff. lia.
  - intros a b c. rewrite N.compare_eq_iff, !N.compare_lt_iff. lia.
Qed.

Lemma Orders_lexCompare {B} (compare : B -> B -> comparison) :
  Orders compare -> Orders (Utf16.lexCompare compare).
Proof.
  intros [Hanti Hlt Heq Heqlt Hlteq]. constructor.
  - induction a as [|x a IH]; intros [|y b]; simpl; try reflexivity.
    rewrite (Hanti x y), (IH b). now destruct (compare y x).
  - induction a as [|x a IH]; intros [|y b] [|z c]; simpl;
      try discriminate; try reflexivity.
    destruct (compare x y) eqn:Hxy, (compare y z) eqn:Hyz;
      try discriminate; intros H1 H2.
    + rewrite (Heq _ _ _ Hxy Hyz). eauto.
    + now rewrite (Heqlt _ _ _ Hxy Hyz).
    + now rewrite (Hlteq _ _ _ Hxy Hyz).
    + now rewrite (Hlt _ _ _ Hxy Hyz).
  - induction a as [|x a IH]; intros [|y b] [|z c]; simpl;
      try discriminate; try reflexivity.
    destruct (compare x y) eqn:Hxy, (compare y z) eqn:Hyz;
      try discriminate; intros H1 H2.
    rewrite (Heq _ _ _ Hxy Hyz). eauto.
  - induction a as [|x a IH]; intros [|y b] [|z c]; simpl;
      try discriminate; try reflexivity.
    destruct (compare x y) eqn:Hxy, (compare y z) eqn:Hyz;
      try discriminate; intros H1 H2.
    + rewrite (Heq _ _ _ Hxy Hyz). eauto.
    + now rewrite (Heqlt _ _ _ Hxy Hyz).
  - induction a as [|x a IH]; intros [|y b] [|z c]; simpl;
      try discriminate; try reflexivity.
    destruct (compare x y) eqn:Hxy, (compare y z) eqn:Hyz;
      try discriminate; intros H1 H2.
    + rewrite (Heq _ _ _ Hxy Hyz). eauto.
    + now rewrite (Hlteq _ _ _ Hxy Hyz).
Qed.

Lemma Orders_utf16 : Orders Utf16.compare.
Proof.
  unfold Utf16.compare.
  apply (Orders_on Utf16.codeUnits (Utf16.lexCompare N.compare)).
  apply Orders_lexCompare, Orders_N.
Qed.

Lemma lexCompare_eq (a b : list N) :
  Utf16.lexCompare N.compare a b = Eq <-> a = b.
Proof.
  revert b. induction a as [|x a IH]; intros [|y b]; simpl;
    try (split; [discriminate | congruence]); [tauto|].
  destruct (N.compare x y) eqn:Hxy.
  - apply N.compare_eq_iff in Hxy. subst y. rewrite IH.
    split; congruence.
  - split; [discriminate|]. intros [= -> _].
    now rewrite N.compare_refl in Hxy.
  - split; [discriminate|]. intros [= -> _].
    now rewrite N.compare_refl in Hxy.
Qed.

(** Two strings that neither [<] nor [>] tells apart have the same
    code units. *)
Lemma compare_eq a b :
  Utf16.compare a b = Eq <-> Utf16.codeUnits a = Utf16.codeUnits b.
Proof. apply lexCompare_eq. Qed.

Lemma compare_refl a : Utf16.compare a a = Eq.
Proof. now apply compare_eq. Qed.

(** On strings of ASCII characters a code unit is a byte. *)
Lemma codeUnits_ascii s :
  Utf16.isAscii s = true ->
  Utf16.codeUnits s = map N_of_ascii (list_ascii_of_string s).
Proof.
  induction s as [|c s IH]; [reflexivity|]. simpl.
  intros Hs. apply andb_true_iff in Hs as [Hc Hs].
  unfold Utf16.width. rewrite Hc. now rewrite IH.
Qed.

(** On strings of ASCII characters, ISO timestamps among them, the
    order of the code units is the order of the bytes. *)
Lemma compare_ascii a b :
  Utf16.isAscii a = true -> Utf16.isAscii b = true ->
  Utf16.compare a b = String.compare a b.
Proof.
  intros Ha Hb. unfold Utf16.compare.
  rewrite (codeUnits_ascii a Ha), (codeUnits_ascii b Hb). clear Ha Hb.
  revert b. induction a as [|x a IH]; intros [|y b]; simpl; try reflexivity.
  unfold Ascii.compare. rewrite IH. reflexivity.
Qed.

(** On ASCII strings [Js.lt], the order of the bytes, is [<]. *)
Lemma lt_ascii a b :
  Utf16.isAscii a = true -> Utf16.isAscii b = true ->
  Js.lt a b = true <-> Utf16.compare a b = Lt.
Proof.
  intros Ha Hb. rewrite (compare_ascii a b Ha Hb).
  unfold Js.lt, String.ltb. destruct (String.compare a b); split; congruence.
Qed.

End Utf16Facts.

(** ** The entries of an object *)

Section EntriesFacts.
Context {A : Type}.

Lemma filter_split (keep : string * A -> bool) (l : list (string * A)) :
  Permutation (List.filter keep l ++ List.filter (fun e => negb (keep e)) l) l.
Proof.
  induction l as [|e l IH]; simpl; [reflexivity|].
  destruct (keep e); simpl.
  - now rewrite IH.
  - rewrite <- Permutation_middle. now rewrite IH.
Qed.

Lemma entries_perm (object : list (string * A)) :
  Permutation (JsObject.entries object) object.
Proof.
  unfold JsObject.entries.
  rewrite <- (filter_split JsObject.isIndex object) at 3.
  apply Permutation_app_tail.
  induction (List.filter JsObject.isIndex object) as [|e l IH]; simpl;
    [reflexivity|].
  now rewrite insertSorted_perm, IH.
Qed.

Lemma In_entries (object : list (string * A)) e :
  In e (JsObject.entries object) <-> In e object.
Proof.
  split; apply Permutation_in; [|symmetry]; apply entries_perm.
Qed.

Lemma entries_keys_NoDup (object : list (string * A)) :
  List.NoDup (map fst object) -> List.NoDup (map fst (JsObject.entries object)).
Proof.
  intros Hnd. eapply Permutation_NoDup; [|exact Hnd].
  apply Permutation_map. symmetry. apply entries_perm.
Qed.

(** An object without a key that is an array index is enumerated in
    the order its keys were created. *)
Lemma entries_no_index (object : list (string * A)) :
  (forall e, In e object -> JsObject.arrayIndex (fst e) = None) ->
  JsObject.entries object = object.
Proof.
  intros Hno. unfold JsObject.entries.
  assert (Hfalse : forall e, In e object -> JsObject.isIndex e = false).
  { intros e He. unfold JsObject.isIndex. rewrite (Hno e He).
    apply bool_decide_eq_false. intros [? ?]. discriminate. }
  clear Hno.
  assert (Hnone : List.filter JsObject.isIndex object = []).
  { induction object as [|e l IH]; [reflexivity|]. simpl.
    rewrite (Hfalse e) by now left.
    apply IH. intros e' He'. apply Hfalse. now right. }
  rewrite Hnone. simpl.
  induction object as [|e l IH]; [reflexivity|]. simpl.
  rewrite (Hfalse e) by now left. simpl. f_equal.
  apply IH.
  - intros e' He'. apply Hfalse. now right.
  - simpl in Hnone. now rewrite (Hfalse e) in Hnone by now left.
Qed.

End EntriesFacts.

(** ** The list of deadlines *)

Section DueListFacts.
Context `{Imports}.

Lemma Orders_byString field : Orders (byString field).
Proof.
  unfold byString.
  apply (Orders_on field (compareAscending String.compare)).
  apply Orders_compareAscending, Orders_string.
Qed.

Lemma string_compare_le a b :
  String.compare a b <> Gt <-> Js.le a b = true.
Proof.
  unfold Js.le, String.leb. destruct (String.compare a b); split; congruence.
Qed.

(** X14.  The deadlines [Timeline] renders are the tasks of the due
    array, none lost and none added, in ascending order of [due];
    tasks with the same [due] are in ascending order of [scheduled],
    those without a [scheduled] value after the others. *)
Theorem timeline_due_list_sorted
    (state : AppState) (startISO endISO : string) (isToday : bool) :
  let dueTasks := dueOf (bucketTasks state startISO endISO isToday) in
  let ordered (a b : TaskProps) :=
    exists dueA dueB,
      Task.due a = Some dueA /\ Task.due b = Some dueB
      /\ Js.le dueA dueB = true
      /\ (dueA = dueB ->
          match Task.scheduled a, Task.scheduled b with
          | Some scheduledA, Some scheduledB => Js.le scheduledA scheduledB = true
          | None, Some _ => False
          | _, None => True
          end) in
  Permutation (sortedDueTasks dueTasks) dueTasks
  /\ StronglySorted ordered (sortedDueTasks dueTasks).
Proof.
  intros dueTasks ordered. split; [apply sortBy_perm|].
  assert (Hdue : forall task, In task (sortedDueTasks dueTasks) ->
                   exists d, Task.due task = Some d).
  { intros task Hin. apply In_sortBy in Hin. unfold dueTasks in Hin.
    rewrite bucketTasks_due, classify_due, filter_In in Hin.
    destruct Hin as [_ Hd]. unfold isDueTask in Hd.
    repeat (apply andb_prop in Hd as [Hd ?]).
    unfold Js.truthy in *. destruct (Task.due task) as [d|]; [eauto | discriminate]. }
  assert (Hsorted : StronglySorted
            (notAfter (compareMultiple [byString Task.due; byString Task.scheduled]))
            (sortedDueTasks dueTasks)).
  { apply sortBy_sorted.
    constructor; [|constructor; [|constructor]]; apply Orders_byString. }
  revert Hdue Hsorted. generalize (sortedDueTasks dueTasks) as l.
  induction l as [|a l IH]; intros Hdue Hsorted; [constructor|].
  apply StronglySorted_inv in Hsorted as [Hl Hall].
  constructor; [apply IH; [intros; apply Hdue; now right | exact Hl]|].
  apply List.Forall_forall. intros b Hb.
  rewrite List.Forall_forall in Hall. specialize (Hall b Hb).
  destruct (Hdue a (or_introl eq_refl)) as [da Ha].
  destruct (Hdue b (or_intror Hb)) as [db Hdb].
  exists da, db. split; [exact Ha|]. split; [exact Hdb|].
  unfold notAfter in Hall. simpl in Hall. unfold byString in Hall.
  rewrite Ha, Hdb in Hall. simpl in Hall.
  destruct (String.compare da db) eqn:Hcmp.
  - apply String.compare_eq_iff in Hcmp. subst db. split; [apply str_le_refl|].
    intros _. destruct (Task.scheduled a) as [sa|], (Task.scheduled b) as [sb|];
      simpl in Hall; try tauto; try congruence.
    apply string_compare_le.
    destruct (String.compare sa sb); congruence.
  - split.
    + apply string_compare_le. congruence.
    + intros ->. now rewrite string_compare_refl in Hcmp.
  - congruence.
Qed.

End DueListFacts.

(** ** The nesting of [Block] *)

Section BlockFacts.
Context `{Imports}.

Lemma filter_nonempty {A} (keep : A -> bool) (l : list A) x :
  In x l -> keep x = true -> List.filter keep l <> [].
Proof.
  intros Hin Hkeep Hnil.
  assert (Hx : In x (List.filter keep l)) by (apply filter_In; auto).
  now rewrite Hnil in Hx.
Qed.

Lemma nonempty_In {A} (l : list A) : l <> [] -> exists x, In x l.
Proof. destruct l as [|x l]; [congruence|]. intros _. exists x. now left. Qed.

(** X15.  In a block that is not a block of children, the nested
    tasks are: the tasks of the list that have no parent, as they are;
    and, for each parent id carried by a task of the list and that is
    not the id of a task of the list, one group for that parent, built
    on the record the store has for it, whose kind is "parent" and
    whose children are the ids of the tasks of the list under that
    parent.  A task whose parent is in the list gives no element.  In
    a block of children the nested tasks are the tasks. *)
Theorem block_nested_tasks
    (state : AppState) (type : string) (blockTasks : list TaskProps) :
  let parentKey (task : TaskProps) := default "undefined" (Task.parent task) in
  (Js.includes ["parent"; "child"] type = false ->
   forall x,
     In x (nestedTasks state type blockTasks)
     <-> (exists task,
             In task blockTasks /\ parentKey task = "undefined" /\ x = ofTask task)
         \/ (exists task,
               In task blockTasks /\ parentKey task <> "undefined"
               /\ ~ In (parentKey task) (map Task.id blockTasks)
               /\ x = parentGroup
                        (tasks state !! parentKey task)
                        (List.filter
                           (fun child => String.eqb (parentKey child) (parentKey task))
                           blockTasks)))
  /\ (Js.includes ["parent"; "child"] type = true ->
      nestedTasks state type blockTasks = map ofTask blockTasks).
Proof.
  intros parentKey. split.
  - intros Htype x. unfold nestedTasks, tasksByParent. rewrite Htype.
    rewrite in_flat_map.
    destruct (groupBy_groupsOf parentKey blockTasks) as [_ Hgroups].
    fold parentKey. split.
    + intros [[k xs] [Hentry Hx]]. rewrite In_entries in Hentry.
      apply Hgroups in Hentry as [Hxs Hne].
      unfold nestEntry in Hx.
      destruct (String.eqb k "undefined") eqn:Hk.
      * apply String.eqb_eq in Hk. subst k. left.
        apply in_map_iff in Hx as [task [<- Hin]]. rewrite Hxs in Hin.
        apply filter_In in Hin as [Hin Hkey]. apply String.eqb_eq in Hkey.
        exists task. auto.
      * apply String.eqb_neq in Hk.
        destruct (Js.includes (map Task.id blockTasks) k) eqn:Hids; [destruct Hx|].
        destruct Hx as [<-|[]]. right.
        destruct (nonempty_In xs Hne) as [task Hin]. rewrite Hxs in Hin.
        apply filter_In in Hin as [Hin Hkey]. apply String.eqb_eq in Hkey.
        exists task. rewrite Hkey. split; [exact Hin|]. split; [exact Hk|].
        split; [|now rewrite Hxs].
        intros Hi. apply includes_In in Hi. congruence.
    + intros [[task [Hin [Hkey ->]]]|[task [Hin [Hkey [Hids ->]]]]].
      * exists ("undefined",
                List.filter (fun c => String.eqb (parentKey c) "undefined") blockTasks).
        split.
        -- apply In_entries, Hgroups. split; [reflexivity|].
           apply filter_nonempty with (x := task); [exact Hin|].
           now apply String.eqb_eq.
        -- simpl. apply in_map. apply filter_In. split; [exact Hin|].
           now apply String.eqb_eq.
      * exists (parentKey task,
                List.filter (fun c => String.eqb (parentKey c) (parentKey task)) blockTasks).
        split.
        -- apply In_entries, Hgroups. split; [reflexivity|].
           apply filter_nonempty with (x := task); [exact Hin|].
           apply String.eqb_refl.
        -- unfold nestEntry. apply String.eqb_neq in Hkey. rewrite Hkey.
           destruct (Js.includes (map Task.id blockTasks) (parentKey task)) eqn:Hi.
           ++ apply includes_In in Hi. tauto.
           ++ now left.
  - intros Htype. unfold nestedTasks, tasksByParent. rewrite Htype. simpl.
    apply app_nil_r.
Qed.

End BlockFacts.

(** ** The groups of [Block] and the headings of [Group] *)

Section GroupsFacts.
Context `{Imports}.

Lemma sortBy_keys_NoDup {A} criteria (entries : list (string * list A)) :
  List.NoDup (map fst entries) -> List.NoDup (map fst (sortBy criteria entries)).
Proof.
  intros Hnd. eapply Permutation_NoDup; [|exact Hnd].
  apply Permutation_map. symmetry. apply sortBy_perm.
Qed.

Lemma Orders_byName {A} : Orders (@byName A).
Proof. apply (Orders_on fst Utf16.compare), Orders_utf16. Qed.

Lemma compareMultiple_single {A} (criterion : A -> A -> comparison) a b :
  compareMultiple [criterion] a b = criterion a b.
Proof. simpl. now destruct (criterion a b). Qed.

Lemma sortBy_single_sorted {A} (criterion : A -> A -> comparison) collection :
  Orders criterion ->
  StronglySorted (notAfter criterion) (sortBy [criterion] collection).
Proof.
  intros Horders.
  apply StronglySorted_weaken with (R := notAfter (compareMultiple [criterion])).
  - intros a b _ _. unfold notAfter. now rewrite compareMultiple_single.
  - apply sortBy_sorted. constructor; [exact Horders | constructor].
Qed.

Lemma Orders_byLine : Orders byLine.
Proof.
  unfold byLine.
  apply (Orders_on Partial.position_start_line (compareAscending Nat.compare)).
  apply Orders_compareAscending, Orders_nat.
Qed.

(** X16.  The groups of a block come in ascending order of their area
    names, as [<] orders strings (by their UTF-16 code units): no
    group is after a later one, and each name comes once.  A group is
    never empty and holds exactly the nested tasks of its area, in
    ascending order of line, those without a line after the others;
    every nested task is in the group of its area. *)
Theorem block_sorted_groups
    (state : AppState) (type : string) (blockTasks : list TaskProps) :
  let areaKey (item : Partial.TaskProps) :=
    default "undefined" (Partial.area item) in
  let lineOrder (a b : Partial.TaskProps) :=
    match Partial.position_start_line a, Partial.position_start_line b with
    | Some lineA, Some lineB => lineA <= lineB
    | None, Some _ => False
    | _, None => True
    end in
  let groups := sortedGroups state type blockTasks in
  StronglySorted (notAfter byName) groups
  /\ List.NoDup (map fst groups)
  /\ (forall name items,
        In (name, items) groups ->
        items <> []
        /\ (forall item,
              In item items
              <-> In item (nestedTasks state type blockTasks)
                  /\ areaKey item = name)
        /\ StronglySorted lineOrder items)
  /\ (forall item,
        In item (nestedTasks state type blockTasks) ->
        exists items, In (areaKey item, items) groups /\ In item items).
Proof.
  intros areaKey lineOrder groups. unfold groups, sortedGroups.
  set (sortedTasks := sortBy [byLine] (nestedTasks state type blockTasks)).
  destruct (groupBy_groupsOf areaKey sortedTasks) as [Hnd Hgroups].
  fold areaKey.
  assert (Hsorted : StronglySorted lineOrder sortedTasks).
  { apply StronglySorted_weaken
      with (R := notAfter (compareMultiple [byLine])).
    - intros a b _ _. unfold notAfter, lineOrder. simpl. unfold byLine.
      destruct (Partial.position_start_line a) as [la|],
               (Partial.position_start_line b) as [lb|]; simpl;
        try tauto; try congruence.
      intros Hnot. destruct (Nat.compare la lb) eqn:Hcmp.
      + apply Nat.compare_eq_iff in Hcmp. lia.
      + apply Nat.compare_lt_iff in Hcmp. lia.
      + congruence.
    - apply sortBy_sorted. constructor; [apply Orders_byLine | constructor]. }
  split; [|split; [|split]].
  - apply sortBy_single_sorted, Orders_byName.
  - now apply sortBy_keys_NoDup, entries_keys_NoDup.
  - intros name items Hin. rewrite In_sortBy, In_entries in Hin.
    apply Hgroups in Hin as [-> Hne]. split; [exact Hne|]. split.
    + intros item. rewrite filter_In, String.eqb_eq.
      unfold sortedTasks. now rewrite In_sortBy.
    + now apply filter_StronglySorted.
  - intros item Hin.
    exists (List.filter (fun x => String.eqb (areaKey x) (areaKey item)) sortedTasks).
    assert (Hitem : In item
              (List.filter (fun x => String.eqb (areaKey x) (areaKey item))
                           sortedTasks)).
    { apply filter_In. split; [|apply String.eqb_refl].
      unfold sortedTasks. now apply In_sortBy. }
    split; [|exact Hitem]. rewrite In_sortBy, In_entries. apply Hgroups.
    split; [reflexivity|]. intros Hnil. now rewrite Hnil in Hitem.
Qed.

End GroupsFacts.

Section HeadingsFacts.






End HeadingsFacts.

(** ** Strings *)

Section JsStringFacts.
Variable c : ascii.

Local Abbreviation pattern := (String c EmptyString).

Lemma prefix_char (s : string) :
  String.prefix pattern s = true <-> exists rest, s = String c rest.
Proof.
  destruct s as [|a rest]; simpl.
  - split; [discriminate | intros [? ?]; discriminate].
  - destruct (ascii_dec c a) as [->|Hne].
    + split; [eauto | intros _; now destruct rest].
    + split; [discriminate | intros [? [= ? _]]; congruence].
Qed.

Lemma prefix_char_same (h : string) :
  String.prefix pattern (String c h) = true.
Proof. apply prefix_char. eauto. Qed.

Lemma includes_char_app (p h : string) :
  JsString.includes pattern (p ++ String c h) = true.
Proof.
  induction p as [|a p IH].
  - change (String.prefix pattern (String c h)
            || JsString.includes pattern h = true).
    now rewrite prefix_char_same.
  - change (String.prefix pattern (String a (p ++ String c h))
            || JsString.includes pattern (p ++ String c h) = true).
    rewrite IH. apply orb_true_r.
Qed.

Lemma includes_cons (a : ascii) (h : string) :
  JsString.includes pattern (String a h)
  = String.prefix pattern (String a h) || JsString.includes pattern h.
Proof. reflexivity. Qed.

Lemma lastIndexOf_cons (a : ascii) (h : string) :
  JsString.lastIndexOf pattern (String a h)
  = match JsString.lastIndexOf pattern h with
    | Some i => Some (S i)
    | None => if String.prefix pattern (String a h) then Some 0 else None
    end.
Proof. reflexivity. Qed.

Lemma lastIndexOf_absent (h : string) :
  JsString.includes pattern h = false -> JsString.lastIndexOf pattern h = None.
Proof.
  induction h as [|a h IH].
  - intros _. reflexivity.
  - rewrite includes_cons, lastIndexOf_cons. intros Hinc.
    apply orb_false_iff in Hinc as [Hp Hrest].
    now rewrite (IH Hrest), Hp.
Qed.

Lemma lastIndexOf_char_app (p h : string) :
  JsString.includes pattern h = false ->
  JsString.lastIndexOf pattern (p ++ String c h) = Some (String.length p).
Proof.
  intros Hh. induction p as [|a p IH].
  - change (JsString.lastIndexOf pattern (String c h) = Some 0).
    now rewrite lastIndexOf_cons, (lastIndexOf_absent h Hh), prefix_char_same.
  - change (JsString.lastIndexOf pattern (String a (p ++ String c h))
            = Some (S (String.length p))).
    now rewrite lastIndexOf_cons, IH.
Qed.

Lemma slice_after (p h : string) :
  JsString.slice (S (String.length p)) (p ++ String c h) = h.
Proof. induction p as [|a p IH]; simpl; [reflexivity | exact IH]. Qed.

Lemma slice_after_last (p h : string) :
  JsString.includes pattern h = false ->
  JsString.slice
    (JsString.afterIndex (JsString.lastIndexOf pattern (p ++ String c h)))
    (p ++ String c h)
  = h.
Proof.
  intros Hh. rewrite (lastIndexOf_char_app p h Hh).
  apply slice_after.
Qed.

Lemma includes_char_app_absent (p h : string) :
  JsString.includes pattern p = false ->
  JsString.includes pattern h = false ->
  JsString.includes pattern (p ++ h) = false.
Proof.
  intros Hp Hh. induction p as [|a p IH]; [exact Hh|].
  change (JsString.includes pattern (String a (p ++ h)) = false).
  rewrite includes_cons in *. apply orb_false_iff in Hp as [Hpre Hrest].
  rewrite (IH Hrest), orb_false_r.
  destruct (String.prefix pattern (String a (p ++ h))) eqn:Hpref; [|reflexivity].
  apply prefix_char in Hpref as [rest' [= -> _]].
  now rewrite prefix_char_same in Hpre.
Qed.

End JsStringFacts.

Section RemoveFirst.

Lemma removeFirst_absent (pattern s : string) :
  JsString.includes pattern s = false -> JsString.removeFirst pattern s = s.
Proof.
  induction s as [|a s IH].
  - cbn [JsString.includes JsString.removeFirst]. rewrite orb_false_r.
    now intros ->.
  - change (String.prefix pattern (String a s) || JsString.includes pattern s
            = false ->
            (if String.prefix pattern (String a s)
             then JsString.slice (String.length pattern) (String a s)
             else String a (JsString.removeFirst pattern s))
            = String a s).
    intros Hinc. apply orb_false_iff in Hinc as [Hp Hrest].
    now rewrite Hp, (IH Hrest).
Qed.

End RemoveFirst.

(** ** The [Heading] of a group *)

Section HeadingFacts.

(** X18.  The heading bar of a heading-level group names its heading:
    for a group whose first task has the heading [name], a name that
    is not empty, is not the ungrouped name and holds no ['#'], the
    group renders a [Heading] on the path of that task followed by
    ['#'] and the name; [Heading] takes that path for a heading and
    shows the name, less the first [.md] it holds if it holds one. *)
Theorem heading_of_heading_group
    (name : string) (task : TaskProps) (rest : list TaskProps) :
  Task.heading task = Some name ->
  name <> "" -> name <> UNGROUPED ->
  JsString.includes "#" name = false ->
  let path := (Task.path task ++ "#" ++ name)%string in
  headingPath name "heading" (task :: rest) = Returned (Some path)
  /\ headingLevel path = "heading"
  /\ headingName path = JsString.removeFirst ".md" name
  /\ (JsString.includes ".md" name = false -> headingName path = name).
Proof.
  intros Hheading Hne Hun Hsharp path.
  assert (Hpath : path = (Task.path task ++ String "#"%char name)%string)
    by reflexivity.
  assert (Hlevel : headingLevel path = "heading").
  { unfold headingLevel. rewrite Hpath.
    now rewrite (includes_char_app "#"%char (Task.path task) name). }
  assert (Hname : headingName path = JsString.removeFirst ".md" name).
  { unfold headingName. rewrite Hlevel. simpl String.eqb. cbv iota.
    rewrite Hpath.
    now rewrite (slice_after_last "#"%char (Task.path task) name Hsharp). }
  split; [|split; [exact Hlevel|split; [exact Hname|]]].
  - unfold headingPath. apply truthyStr_true in Hne. rewrite Hne.
    apply String.eqb_neq in Hun. rewrite Hun. simpl. now rewrite Hheading.
  - intros Hmd. rewrite Hname. now apply removeFirst_absent.
Qed.

(** X19.  For a path that holds no ['#'], [Heading] is at the group
    level and shows the part of the path after its last ['/'], the
    whole path when it has none, less the first [.md] of that part. *)
Theorem heading_of_file_path (directory base : string) :
  JsString.includes "#" directory = false ->
  JsString.includes "#" base = false ->
  JsString.includes "/" base = false ->
  (headingLevel (directory ++ "/" ++ base) = "group"
   /\ headingName (directory ++ "/" ++ base) = JsString.removeFirst ".md" base)
  /\ (headingLevel base = "group"
      /\ headingName base = JsString.removeFirst ".md" base).
Proof.
  intros Hdir Hbase Hslash.
  assert (Hpath : JsString.includes "#" (directory ++ "/" ++ base) = false).
  { apply (includes_char_app_absent "#"%char); [exact Hdir|].
    apply (includes_char_app_absent "#"%char "/" base); [reflexivity | exact Hbase]. }
  change (directory ++ "/" ++ base)%string
    with (directory ++ String "/"%char base)%string in *.
  split; split.
  - unfold headingLevel. now rewrite Hpath.
  - unfold headingName, headingLevel. rewrite Hpath. simpl String.eqb. cbv iota.
    rewrite (includes_char_app "/"%char directory base).
    now rewrite (slice_after_last "/"%char directory base Hslash).
  - unfold headingLevel. now rewrite Hbase.
  - unfold headingName, headingLevel. rewrite Hbase. simpl String.eqb. cbv iota.
    now rewrite Hslash.
Qed.

End HeadingFacts.

(** ** The columns of [App] *)

Section AppFacts.

(** X20.  Whatever the width of the ruler, the number of columns is
    between 1 and 4, so the class looked up for it exists and is not
    the empty class; a wider ruler never has fewer columns. *)
Theorem app_child_width_class (width wider : nat) :
  (1 <= newChildWidth width <= 4)
  /\ (exists class,
         nth_error childWidthToClass (newChildWidth width) = Some class
         /\ class <> "")
  /\ (width <= wider -> newChildWidth width <= newChildWidth wider).
Proof.
  unfold newChildWidth. split; [|split].
  - repeat (destruct (Nat.ltb _ _)); lia.
  - repeat (destruct (Nat.ltb _ _)); simpl; eexists; split; try reflexivity;
      discriminate.
  - intros Hle.
    destruct (Nat.ltb_spec width 500), (Nat.ltb_spec width 800),
      (Nat.ltb_spec width 1200), (Nat.ltb_spec wider 500),
      (Nat.ltb_spec wider 800), (Nat.ltb_spec wider 1200); lia.
Qed.

Lemma times_length isoDate datesShown :
  length (times isoDate datesShown)
  = if Nat.eqb datesShown 0 then 2 else datesShown.
Proof.
  unfold times. destruct (Nat.eqb_spec datesShown 0) as [->|Hne]; [reflexivity|].
  simpl. rewrite length_map, length_seq. lia.
Qed.

(** X21.  The columns are consecutive days from today: the column of
    index [i] runs from day [i] to day [i + 1], so each column ends
    where the next one starts; there are two columns when
    [datesShown] is 0 and [datesShown] columns otherwise. *)
Theorem app_times_consecutive
    (isoDate : nat -> string) (datesShown i : nat) :
  let columns := if Nat.eqb datesShown 0 then 2 else datesShown in
  length (times isoDate datesShown) = columns
  /\ (i < columns ->
      nth_error (times isoDate datesShown) i
      = Some (Window.mk (isoDate i) (isoDate (i + 1)) "minutes"))
  /\ (forall this next,
        nth_error (times isoDate datesShown) i = Some this ->
        nth_error (times isoDate datesShown) (S i) = Some next ->
        Window.endISO this = Window.startISO next).
Proof.
  intros columns.
  assert (Hnth : forall j, j < columns ->
            nth_error (times isoDate datesShown) j
            = Some (Window.mk (isoDate j) (isoDate (j + 1)) "minutes")).
  { intros j Hj. unfold times, columns in *.
    destruct (Nat.eqb_spec datesShown 0) as [->|Hne].
    - destruct j as [|[|j]]; [reflexivity | reflexivity | lia].
    - destruct j as [|j]; [reflexivity|]. simpl.
      rewrite nth_error_map, nth_error_seq.
      destruct (Nat.ltb_spec j (datesShown - 1)); [|lia].
      simpl. reflexivity. }
  split; [apply times_length|]. split; [apply Hnth|].
  intros this next Hthis Hnext.
  assert (Hi : S i < columns).
  { unfold columns. rewrite <- (times_length isoDate datesShown).
    apply nth_error_Some. congruence. }
  rewrite Hnth in Hthis by lia. rewrite Hnth in Hnext by exact Hi.
  injection Hthis as <-. injection Hnext as <-. simpl.
  now replace (i + 1) with (S i) by lia.
Qed.

End AppFacts.

(** * Runs of the other functions *)


(** A write before the collaborator is set. *)
Lemma patchTasks_without_api_witness :
  patchTasks ["a"] reschedule noApiSys = (noApiSys, Thrown TypeError).
Proof.
  apply (patchTasks_without_api noApiSys ["a"] reschedule); [reflexivity|].
  discriminate.
Defined.

(** One flag is recorded; the flag of another group is as it was. *)
Lemma patchCollapsed_sets_one_flag_witness :
  collapsed (store (fst (patchCollapsed "Work" true acceptingSys))) !! "Work"
  = Some true
  /\ collapsed (store (fst (patchCollapsed "Work" true acceptingSys))) !! "Home"
     = collapsed (store acceptingSys) !! "Home".
Proof.
  destruct (patchCollapsed_sets_one_flag acceptingSys "Work" true)
    as [_ [Hset [Hother _]]].
  split; [exact Hset|]. apply Hother. discriminate.
Defined.

(** Two groups collapsed in either order. *)
Lemma patchCollapsed_composes_witness :
  fst (patchCollapsed "Home" false (fst (patchCollapsed "Work" true acceptingSys)))
  = fst (patchCollapsed "Work" true (fst (patchCollapsed "Home" false acceptingSys))).
Proof.
  destruct (patchCollapsed_composes acceptingSys "Work" "Home" true false)
    as [_ [Hswap _]].
  apply Hswap. discriminate.
Defined.

(** The timed parent of the sample table is scheduled inside the day. *)
Lemma timeline_groups_sound_witness :
  exists s, Task.scheduled taskP = Some s
            /\ Js.gt s day1 = true /\ Js.lt s day2 = true.
Proof.
  destruct (timeline_groups_sound sampleStore day1 day2 true taskP)
    as [_ [Htimed _]].
  apply Htimed. vm_compute. auto.
Defined.

(** The block of nine o'clock holds the timed parent. *)
Lemma timeline_time_block_contents_witness :
  In ("2024-01-01T09:00", [inl taskP])
     (timeBlocks sampleStore day1 day2 "2024-01-01T07:00" day1)
  /\ [inl taskP] <> ([] : list (TaskProps + EventProps)).
Proof.
  assert (Hblock : In ("2024-01-01T09:00", [inl taskP])
                      (timeBlocks sampleStore day1 day2 "2024-01-01T07:00" day1))
    by (vm_compute; auto).
  split; [exact Hblock|].
  apply (timeline_time_block_contents sampleStore day1 day2 "2024-01-01T07:00" day1
           "2024-01-01T09:00" [inl taskP] Hblock).
Defined.

Lemma timeline_timed_task_has_block_witness :
  exists scheduled block,
    Task.scheduled taskP = Some scheduled
    /\ In (scheduled, block)
          (timeBlocks sampleStore day1 day2 "2024-01-01T07:00" day1)
    /\ In (inl taskP) block.
Proof.
  apply (timeline_timed_task_has_block sampleStore day1 day2 "2024-01-01T07:00" day1
           taskP).
  - vm_compute. auto.
  - discriminate.
Defined.

(** The event of the morning has its block; the event that began the
    evening before is shown and has none. *)
Lemma timeline_event_block_witness :
  (exists key block,
      In (key, block) (timeBlocks eventStore day1 day2 halfPastMidnight day1)
      /\ In (inr morningEvent) block)
  /\ In overnightEvent
        (atTimeEvents (shownEvents eventStore day1 day2 halfPastMidnight))
  /\ forall key block,
       In (key, block) (timeBlocks eventStore day1 day2 halfPastMidnight day1) ->
       ~ In (inr overnightEvent) block.
Proof.
  assert (Hmorning : In morningEvent
            (atTimeEvents (shownEvents eventStore day1 day2 halfPastMidnight)))
    by (vm_compute; auto).
  assert (Hnight : In overnightEvent
            (atTimeEvents (shownEvents eventStore day1 day2 halfPastMidnight)))
    by (vm_compute; auto).
  split; [|split; [exact Hnight|]].
  - apply (timeline_event_block eventStore day1 day2 halfPastMidnight day1
             morningEvent Hmorning).
    reflexivity.
  - intros key block Hblock Hin.
    destruct (timeline_event_block eventStore day1 day2 halfPastMidnight day1
                overnightEvent Hnight) as [[Hgt _] _].
    assert (Habsurd : Js.gt (Event.startISO overnightEvent) day1 = true)
      by (apply Hgt; eauto).
    discriminate.
Defined.

(** In a block with the child of the timed parent and a task without
    parent, the child comes under a group for its parent, built on the
    record of the store. *)
Lemma block_nested_tasks_witness :
  In (parentGroup (Some taskP) [taskC])
     (nestedTasks sampleStore "default" [taskC; taskDue])
  /\ In (ofTask taskDue) (nestedTasks sampleStore "default" [taskC; taskDue]).
Proof.
  destruct (block_nested_tasks sampleStore "default" [taskC; taskDue])
    as [Hnested _].
  specialize (Hnested eq_refl). split.
  - apply Hnested. right. exists taskC. split; [simpl; auto|].
    split; [discriminate|]. split; [|reflexivity].
    simpl. intros [?|[?|[]]]; discriminate.
  - apply Hnested. left. exists taskDue. split; [simpl; auto|].
    split; reflexivity.
Defined.

(** The area that starts with a character outside the basic plane
    comes first: its first code unit is a surrogate, below the code
    unit of the fullwidth letter, though its bytes are above. *)
Lemma block_sorted_groups_witness :
  sortedGroups sampleStore "default" [taskWide; taskCalendar]
  = [("📅 calendar", [ofTask taskCalendar]); ("Ａ notes", [ofTask taskWide])]
  /\ String.compare "Ａ notes" "📅 calendar" = Lt
  /\ exists items,
       In ("Tasks", items) (sortedGroups sampleStore "default" [taskC; taskDue])
       /\ In (ofTask taskDue) items.
Proof.
  split; [reflexivity|]. split; [reflexivity|].
  destruct (block_sorted_groups sampleStore "default" [taskC; taskDue])
    as [_ [_ [_ Hcover]]].
  apply (Hcover (ofTask taskDue)). vm_compute. auto.
Defined.


Lemma heading_of_heading_group_witness :
  headingPath "Next" "heading" [taskNext1; taskNext2]
  = Returned (Some "Work/plan#Next")
  /\ headingName "Work/plan#Next" = "Next".
Proof.
  destruct (heading_of_heading_group "Next" taskNext1 [taskNext2])
    as [Hpath [_ [_ Hname]]];
    [reflexivity | discriminate | discriminate | reflexivity |].
  split; [exact Hpath|]. apply Hname. reflexivity.
Defined.

Lemma heading_of_file_path_witness :
  headingName "Work/plan.md" = "plan".
Proof.
  destruct (heading_of_file_path "Work" "plan.md") as [[_ Hname] _];
    [reflexivity | reflexivity | reflexivity |].
  exact Hname.
Defined.

Lemma app_child_width_class_witness :
  newChildWidth 900 <= newChildWidth 1300.
Proof.
  destruct (app_child_width_class 900 1300) as [_ [_ Hmono]].
  apply Hmono. lia.
Defined.

(** A week shown: the second column is the second of January. *)
Lemma app_times_consecutive_witness :
  nth_error (times sampleIsoDate 7) 1
  = Some (Window.mk "2024-01-02" "2024-01-03" "minutes").
Proof.
  destruct (app_times_consecutive sampleIsoDate 7 1) as [_ [Hnth _]].
  apply Hnth. simpl. lia.
Defined.
